(** * build_cnext.py: the c-next pre-build step for PlatformIO

    A shallow embedding of
    [vscode-extension/examples/blink/build_cnext.py] and the properties of
    its command runner, staleness detector, pipeline and staging step.

    The script talks to the outside world through a handful of library
    calls: [subprocess.run], [Path.glob], [Path.stat], [Path.exists],
    [shutil.copy2], [print], [sys.exit] and [traceback.print_exc].  Each of
    them is modelled below as an action of a state-and-exception monad over
    a world made of a file system and a trace of the effects performed so
    far.  What the script cannot decide is an input of the model, the
    [machine] of the section [Script]: how a command line behaves, how the
    bytes a child process writes decode as text, and what the clock reads
    when a file is created.

    The model is that of a POSIX machine: names are compared byte for
    byte and there are no symbolic links.  A Python [str] is kept as the
    string of the bytes of its UTF-8 encoding.  Nothing but the script and
    the child processes it starts touches the files during a run, [print]
    succeeds and no signal reaches the script. *)

From Stdlib Require Import ZArith String Ascii List Lia.
From Stdlib Require Import Strings.Byte.
From stdpp Require Import base option list strings pretty gmap fin_maps.

Local Open Scope string_scope.
Local Open Scope list_scope.
Local Open Scope Z_scope.

(** ** The world *)

(** A path is the list of its components, relative to the working
    directory: [Path("src") / "a.cpp"] is [["src"; "a.cpp"]]. *)
Abbreviation path := (list string).

(** What a path leads to.  [st_mtime] is a finite double; the script only
    compares such values with [max], [min] and [>], and finite doubles are
    ordered as the integers [d * 2^1074] are, so the time stamp is kept as
    that integer. *)
Inductive node :=
  | File (data : string) (st_mtime : Z)
  | Dir (st_mtime : Z).

Abbreviation filesystem := (gmap path node).

Definition node_mtime (n : node) : Z :=
  match n with File _ t => t | Dir t => t end.

Definition is_dir (fs : filesystem) (p : path) : bool :=
  match fs !! p with Some (Dir _) => true | _ => false end.

Definition exists_path (fs : filesystem) (p : path) : bool :=
  match fs !! p with Some _ => true | None => false end.

(** Python exceptions the script can meet.  [SystemExit] derives from
    [BaseException] only; the others derive from [Exception]. *)
Inductive exn :=
  | SystemExit (code : Z)
  | CalledProcessError (returncode : Z) (cmd output stderr : string)
  | OSError (msg : string)
  | ValueError (msg : string)
  | UnicodeDecodeError (msg : string).

Definition is_Exception (e : exn) : bool :=
  match e with SystemExit _ => false | _ => true end.

(** [str(e)] *)
Definition exn_str (e : exn) : string :=
  match e with
  | SystemExit c => pretty c
  | CalledProcessError rc cmd _ _ =>
      "Command '" ++ cmd ++ "' returned non-zero exit status " ++ pretty rc ++ "."
  | OSError m => m
  | ValueError m => m
  | UnicodeDecodeError m => m
  end.

(** The effects a run leaves behind, oldest first. *)
Inductive event :=
  | EvStdout (line : string)
  | EvTraceback (e : exn)
  | EvSpawn (cmd : string)
  | EvGlob (dir : path) (pattern : string)
  | EvStat (p : path)
  | EvCopy (src dst : path).

Record world := World { fs : filesystem; trace : list event }.

Definition log (e : event) (w : world) : world :=
  World (fs w) (trace w ++ [e]).

Definition set_fs (f : filesystem) (w : world) : world :=
  World f (trace w).

(** ** Statements: state passing with exceptions

    A raised exception keeps the world as it was when it was raised. *)
Inductive result (A : Type) :=
  | Ok (a : A)
  | Raise (e : exn).
Arguments Ok {A} a.
Arguments Raise {A} e.

Definition M (A : Type) : Type := world -> result A * world.

Definition ret {A} (a : A) : M A := fun w => (Ok a, w).

Definition bind {A B} (c : M A) (k : A -> M B) : M B :=
  fun w => match c w with
           | (Ok a, w') => k a w'
           | (Raise e, w') => (Raise e, w')
           end.

Definition raise {A} (e : exn) : M A := fun w => (Raise e, w).

(** [try: body except <handles>: handler]: an exception the clause does
    not handle goes on. *)
Definition try_except {A} (body : M A) (handles : exn -> bool)
    (handler : exn -> M A) : M A :=
  fun w => match body w with
           | (Raise e, w') =>
               if handles e then handler e w' else (Raise e, w')
           | r => r
           end.

Definition get_fs : M filesystem := fun w => (Ok (fs w), w).
Definition put_fs (f : filesystem) : M unit := fun w => (Ok tt, set_fs f w).
Definition emit (e : event) : M unit := fun w => (Ok tt, log e w).

Declare Scope py_scope.
Delimit Scope py_scope with py.
Notation "x <- c ;; k" := (bind c (fun x => k))
  (at level 100, c at next level, right associativity) : py_scope.
Notation "c ;; k" := (bind c (fun _ => k))
  (at level 100, right associativity) : py_scope.
Local Open Scope py_scope.

(** [for x in xs: body x] *)
Fixpoint for_each {A} (xs : list A) (body : A -> M unit) : M unit :=
  match xs with
  | [] => ret tt
  | x :: xs' => body x ;; for_each xs' body
  end.

(** [[f x for x in xs]] *)
Fixpoint map_M {A B} (f : A -> M B) (xs : list A) : M (list B) :=
  match xs with
  | [] => ret []
  | x :: xs' => y <- f x ;; ys <- map_M f xs' ;; ret (y :: ys)
  end.

(** ** Library calls *)

Definition print (s : string) : M unit := emit (EvStdout s).

Definition sys_exit {A} (code : Z) : M A := raise (SystemExit code).

Definition traceback_print_exc (e : exn) : M unit := emit (EvTraceback e).

(** [fnmatch]: [*] stands for any run of characters, [?] for one
    character, any other character for itself (the patterns of the script
    have no bracket class). *)
Fixpoint fnmatch (pat name : string) : bool :=
  match pat with
  | EmptyString => match name with EmptyString => true | _ => false end
  | String c pat' =>
      if Ascii.eqb c "*" then
        (fix star (n : string) : bool :=
           fnmatch pat' n ||
           match n with EmptyString => false | String _ n' => star n' end) name
      else
        match name with
        | EmptyString => false
        | String d name' =>
            (Ascii.eqb c "?" || Ascii.eqb c d) && fnmatch pat' name'
        end
  end.

(** The name [n] such that [p = dir / n], when [p] is directly in [dir]. *)
Fixpoint child_name (dir p : path) : option string :=
  match dir, p with
  | [], [n] => Some n
  | d :: dir', c :: p' => if String.eqb d c then child_name dir' p' else None
  | _, _ => None
  end.

Definition glob_match (dir : path) (pattern : string) (p : path) : bool :=
  match child_name dir p with
  | Some n => fnmatch pattern n
  | None => false
  end.

(** [list(dir.glob(pattern))]: the entries directly in [dir] (files and
    directories alike) whose name matches, nothing when [dir] is not a
    directory; the enumeration takes a snapshot of the directory, in the
    order of the map's enumeration. *)
Definition glob_list (f : filesystem) (dir : path) (pattern : string) : list path :=
  if is_dir f dir
  then filter (fun p => Is_true (glob_match dir pattern p)) (map_to_list f).*1
  else [].

Definition glob (dir : path) (pattern : string) : M (list path) :=
  emit (EvGlob dir pattern) ;;
  f <- get_fs ;;
  ret (glob_list f dir pattern).

(** [p.stat().st_mtime]: of files and directories alike. *)
Definition stat_mtime (p : path) : M Z :=
  emit (EvStat p) ;;
  f <- get_fs ;;
  match f !! p with
  | Some n => ret (node_mtime n)
  | None => raise (OSError "No such file or directory")
  end.

(** [p.exists()] *)
Definition path_exists (p : path) : M bool :=
  f <- get_fs ;; ret (exists_path f p).

(** [p.name] *)
Definition path_name (p : path) : string := List.last p "".

(** [max(xs)] and [min(xs)] of Python: the first of the largest
    (smallest) elements, [ValueError] on an empty sequence. *)
Definition py_max (xs : list Z) : M Z :=
  match xs with
  | [] => raise (ValueError "max() arg is an empty sequence")
  | x :: xs' => ret (fold_left (fun m y => if m <? y then y else m) xs' x)
  end.

Definition py_min (xs : list Z) : M Z :=
  match xs with
  | [] => raise (ValueError "min() arg is an empty sequence")
  | x :: xs' => ret (fold_left (fun m y => if y <? m then y else m) xs' x)
  end.

(** [s.replace("\r\n", "\n")] and [s.replace("\r", "\n")] *)
Fixpoint replace_crlf (s : string) : string :=
  match s with
  | EmptyString => EmptyString
  | String c s' =>
      match s' with
      | String d s'' =>
          if Ascii.eqb c "013" && Ascii.eqb d "010"
          then String "010" (replace_crlf s'')
          else String c (replace_crlf s')
      | EmptyString => String c EmptyString
      end
  end.

Fixpoint replace_cr (s : string) : string :=
  match s with
  | EmptyString => EmptyString
  | String c s' =>
      String (if Ascii.eqb c "013" then "010"%char else c) (replace_cr s')
  end.

(** ** The machine *)

(** What running a shell command line does: the child runs to its end and
    leaves an exit status, the bytes it wrote on its two output streams and
    the file system as it made it; or no child could be started at all
    ([OSError] from [Popen]: with [shell=True], the shell itself could not
    be run). *)
Inductive spawn_outcome :=
  | Exited (returncode : Z) (out err : list byte) (fs' : filesystem)
  | SpawnFailed (msg : string).

(** What [data.decode(encoding, "strict")] gives: the text, or a
    [UnicodeDecodeError] with its message. *)
Inductive decoded :=
  | Text (s : string)
  | Undecodable (msg : string).

(** The machine the script runs on: how a command line behaves on a file
    system; the encoding of its locale, with which text mode decodes the
    output of a child; and the time its clock shows at a point of the run,
    given by the effects performed so far. *)
Record machine := Machine
  { shell : string -> filesystem -> spawn_outcome;
    codec : list byte -> decoded;
    clock : list event -> Z }.

Record CompletedProcess :=
  { cp_returncode : Z; cp_stdout : string; cp_stderr : string }.

Definition tsc_cmd : string :=
  "npx tsc cnext-build.ts --target es2022 --module node16 --outDir .pio/build".
Definition node_cmd : string := "node .pio/build/cnext-build.js".

Section Script.

Variable m : machine.

(** The time of the machine, now. *)
Definition time_now : M Z := fun w => (Ok (clock m (trace w)), w).

(** [shutil.copyfile(src, dst)] followed by [shutil.copystat(src, dst)]:
    the two paths must not be the same file; the source is opened for
    reading, so it must be a regular file; the destination is opened for
    writing, so it must not be a directory and its directory must exist.
    A destination that was not there is a new entry of its directory, and
    the time stamp of that directory becomes the time of the creation; a
    destination that was there is overwritten, and its directory is left
    as it is.  The destination then has the data and the time stamp of the
    source.  Failures that the shape of the file system does not decide
    (permissions, a full disk) are not modelled. *)
Definition shutil_copyfile_copystat (src dst : path) : M unit :=
  f <- get_fs ;;
  if bool_decide (src = dst) && exists_path f src then
    raise (OSError "are the same file")
  else
    match f !! src with
    | None => raise (OSError "No such file or directory")
    | Some (Dir _) => raise (OSError "Is a directory")
    | Some (File data t) =>
        if is_dir f dst then raise (OSError "Is a directory")
        else if negb (is_dir f (removelast dst)) then
          raise (OSError "No such file or directory")
        else
          now <- time_now ;;
          let f' := if exists_path f dst then f
                    else <[removelast dst := Dir now]> f in
          put_fs (<[dst := File data t]> f') ;;
          emit (EvCopy src dst)
    end.

(** [shutil.copy2(src, dst)]: into [dst / src.name] when [dst] is a
    directory. *)
Definition shutil_copy2 (src dst : path) : M unit :=
  f <- get_fs ;;
  let dst := if is_dir f dst then dst ++ [path_name src] else dst in
  shutil_copyfile_copystat src dst.

(** [Popen._translate_newlines(data, encoding, errors)], which text mode
    applies to what a stream gave: the bytes are decoded with the encoding
    of the locale, strictly, and the line ends made uniform. *)
Definition translate_newlines (data : list byte) : M string :=
  match codec m data with
  | Text s => ret (replace_cr (replace_crlf s))
  | Undecodable msg => raise (UnicodeDecodeError msg)
  end.

(** [subprocess.run(cmd, shell=True, check=check, capture_output=True,
    text=True)]: the child is waited for, then its standard output and its
    standard error are turned into text, in this order, and only then is
    the exit status looked at. *)
Definition subprocess_run (cmd : string) (check : bool) : M CompletedProcess :=
  emit (EvSpawn cmd) ;;
  f <- get_fs ;;
  match shell m cmd f with
  | SpawnFailed msg => raise (OSError msg)
  | Exited rc out err f' =>
      put_fs f' ;;
      stdout <- translate_newlines out ;;
      stderr <- translate_newlines err ;;
      if check && negb (rc =? 0)
      then raise (CalledProcessError rc cmd stdout stderr)
      else ret {| cp_returncode := rc; cp_stdout := stdout; cp_stderr := stderr |}
  end.

Definition is_CalledProcessError (e : exn) : bool :=
  match e with CalledProcessError _ _ _ _ => true | _ => false end.

Definition run_command (cmd : string) : M (bool * string * string) :=
  try_except
    (result <- subprocess_run cmd true ;;
     ret (true, cp_stdout result, cp_stderr result))
    is_CalledProcessError
    (fun e => match e with
              | CalledProcessError _ _ out err => ret (false, out, err)
              | _ => raise e
              end).

Definition check_if_transpilation_needed : M bool :=
  cn <- glob ["src"] "*.cn" ;;
  cnm <- glob ["src"] "*.cnm" ;;
  let src_files := cn ++ cnm in
  cpp <- glob ["src"] "*.cpp" ;;
  h <- glob ["src"] "*.h" ;;
  let generated_files := cpp ++ h in
  if bool_decide (src_files = []) then ret false
  else if bool_decide (generated_files = []) then ret true
  else
    src_times <- map_M stat_mtime src_files ;;
    newest_src_time <- py_max src_times ;;
    gen_times <- map_M stat_mtime generated_files ;;
    oldest_gen_time <- py_min gen_times ;;
    ret (newest_src_time >? oldest_gen_time).

(** The loop of lines 76 to 80 for one pattern. *)
Definition copy_pattern (generated_dir src_dir : path) (pattern : string) : M unit :=
  files <- glob generated_dir pattern ;;
  for_each files (fun file_path =>
    let dest_path := src_dir ++ [path_name file_path] in
    shutil_copy2 file_path dest_path ;;
    print ("   Copied " ++ path_name file_path ++ " to src/")).

(** Lines 70 to 80: the staging of the generated files. *)
Definition stage_generated : M unit :=
  let generated_dir := ["generated"] in
  let src_dir := ["src"] in
  ex <- path_exists generated_dir ;;
  if ex then
    print "📋 Copying generated C++ files to src directory..." ;;
    for_each ["*.cpp"; "*.h"] (copy_pattern generated_dir src_dir)
  else ret tt.

(** The body of the [try] of [main], lines 46 to 82. *)
Definition main_body : M unit :=
  print "🚀 Starting c-next transpilation..." ;;
  print "📋 Force transpiling c-next files..." ;;
  print "📦 Compiling TypeScript build script..." ;;
  r <- run_command tsc_cmd ;;
  let '(success, stdout, stderr) := r in
  (if negb success then
     print ("❌ TypeScript compilation failed: " ++ stderr) ;;
     sys_exit 1
   else ret tt) ;;
  print "🔄 Running c-next transpilation..." ;;
  r <- run_command node_cmd ;;
  let '(success, stdout, stderr) := r in
  (if negb success then
     print ("❌ c-next transpilation failed: " ++ stderr) ;;
     sys_exit 1
   else ret tt) ;;
  print stdout ;;
  stage_generated ;;
  print "✅ c-next transpilation completed!".

Definition main : M unit :=
  print "🚀 DEBUG: Script starting..." ;;
  try_except main_body is_Exception
    (fun e =>
       print ("❌ ERROR: " ++ exn_str e) ;;
       traceback_print_exc e).

(** The module: the first [print], the definitions, the call of
    [main]. *)
Definition script : M unit :=
  print "🚀 build_cnext.py: Script starting..." ;;
  main.

(** The exit status of the interpreter: 0 when the module ran to its
    end, the code of an uncaught [SystemExit], 1 for any other uncaught
    exception. *)
Definition exit_status (r : result unit) : Z :=
  match r with
  | Ok _ => 0
  | Raise (SystemExit code) => code
  | Raise _ => 1
  end.

Definition run (w : world) : Z * world :=
  let (r, w') := script w in (exit_status r, w').

End Script.

(** * Reference definitions *)

(** ** The staleness verdict *)

(** [name] has the extension [ext] (dot included). *)
Fixpoint has_extension (ext name : string) : bool :=
  String.eqb name ext ||
  match name with
  | EmptyString => false
  | String _ name' => has_extension ext name'
  end.

(** The entries of the directory [dir] of the working directory that
    carry one of the extensions [exts], with their nodes. *)
Definition in_dir_with (dir : string) (exts : list string) (p : path) : bool :=
  match p with
  | [d; n] => String.eqb d dir && existsb (fun e => has_extension e n) exts
  | _ => false
  end.

Definition artifact_set (dir : string) (exts : list string) (f : filesystem) :
    list (path * node) :=
  if is_dir f [dir]
  then filter (fun pn => Is_true (in_dir_with dir exts pn.1)) (map_to_list f)
  else [].

(** The source artifacts: the [.cn] and [.cnm] entries of [src/]. *)
Definition source_artifacts : filesystem -> list (path * node) :=
  artifact_set "src" [".cn"; ".cnm"].

(** The generated artifacts: the [.cpp] and [.h] entries of [src/]. *)
Definition generated_artifacts : filesystem -> list (path * node) :=
  artifact_set "src" [".cpp"; ".h"].

(** What the transpiler left for staging: the [.cpp] and [.h] entries of
    [generated/]. *)
Definition transpiler_output : filesystem -> list (path * node) :=
  artifact_set "generated" [".cpp"; ".h"].

Definition mtimes (a : list (path * node)) : list Z :=
  map (fun pn => node_mtime pn.2) a.

(** Steps 3 to 5 of the detector, on the time stamps of the two sets:
    nothing to transpile without a source; a first build without a
    generated file; otherwise the newest source against the oldest
    generated file, strictly. *)
Definition needsRegeneration (S G : list Z) : bool :=
  match S, G with
  | [], _ => false
  | _ :: _, [] => true
  | s :: S', g :: G' => foldr Z.max s S' >? foldr Z.min g G'
  end.

(** The time stamp [stat] reports for [p] (0 when there is no [p]). *)
Definition mtime_at (f : filesystem) (p : path) : Z :=
  from_option node_mtime 0 (f !! p).

(** A pattern character stands for itself. *)
Fixpoint wildcard_free (s : string) : bool :=
  match s with
  | EmptyString => true
  | String c s' =>
      negb (Ascii.eqb c "*") && negb (Ascii.eqb c "?") && wildcard_free s'
  end.

(** ** Reading a trace *)

(** The command lines started, in order. *)
Definition spawned (evs : list event) : list string :=
  omap (fun e => match e with EvSpawn c => Some c | _ => None end) evs.

(** The copies made, in order. *)
Definition copies (evs : list event) : list (path * path) :=
  omap (fun e => match e with EvCopy s d => Some (s, d) | _ => None end) evs.

(** What a run added to the trace. *)
Definition new_events (w w' : world) : list event :=
  drop (length (trace w)) (trace w').

(** The marks the staleness detector leaves: it lists [src/] and asks for
    time stamps, which nothing else in the script does. *)
Definition consults_detector (e : event) : bool :=
  match e with
  | EvGlob dir _ => bool_decide (dir = ["src"])
  | EvStat _ => true
  | _ => false
  end.

(** [emits P c]: whatever [c] does, it only appends events, all of them
    satisfying [P]. *)
Definition emits {A} (P : event -> Prop) (c : M A) : Prop :=
  forall w r w', c w = (r, w') ->
    exists evs, trace w' = trace w ++ evs /\ Forall P evs.

(** The events of the staging step: progress lines, listings of
    [generated/], copies. *)
Definition staging_event (e : event) : Prop :=
  match e with
  | EvStdout _ | EvCopy _ _ => True
  | EvGlob dir _ => dir = ["generated"]
  | _ => False
  end.

(** [raises_only Q c]: an exception that [c] raises satisfies [Q]. *)
Definition raises_only {A} (Q : exn -> Prop) (c : M A) : Prop :=
  forall w e w', c w = (Raise e, w') -> Q e.

(** [OSError] and its subclasses. *)
Definition is_OSError (e : exn) : Prop :=
  match e with OSError _ => True | _ => False end.

(** ** The pipeline, outcome by outcome *)

(** What the script prints before it starts stage 1, and the start of
    stage 1. *)
Definition preamble : list event :=
  [EvStdout "🚀 build_cnext.py: Script starting...";
   EvStdout "🚀 DEBUG: Script starting...";
   EvStdout "🚀 Starting c-next transpilation...";
   EvStdout "📋 Force transpiling c-next files...";
   EvStdout "📦 Compiling TypeScript build script...";
   EvSpawn tsc_cmd].

(** The announcement and the start of stage 2. *)
Definition transpiling : list event :=
  [EvStdout "🔄 Running c-next transpilation..."; EvSpawn node_cmd].

(** The two lines of the handler of [main]. *)
Definition swallowed (e : exn) : list event :=
  [EvStdout ("❌ ERROR: " ++ exn_str e); EvTraceback e].

(** The last line of a run that came to its end. *)
Definition completed : event := EvStdout "✅ c-next transpilation completed!".

(** The end of [main] once the staging step has come back. *)
Definition finish (rw : result unit * world) : result unit * world :=
  match rw with
  | (Ok _, ws) => (Ok tt, World (fs ws) (trace ws ++ [completed]))
  | (Raise e, ws) =>
      if is_Exception e
      then (Ok tt, World (fs ws) (trace ws ++ swallowed e))
      else (Raise e, ws)
  end.

(** What [subprocess.run] makes of the command line [cmd] on the file
    system [f], before its [check] looks at the exit status, and the file
    system the child leaves: the exit status and the texts of the two
    streams; or the [OSError] of a child that could not be started; or the
    [UnicodeDecodeError] of a stream that does not decode, the standard
    output first. *)
Definition child_result (m : machine) (cmd : string) (f : filesystem) :
    result (Z * string * string) * filesystem :=
  match shell m cmd f with
  | SpawnFailed msg => (Raise (OSError msg), f)
  | Exited rc out err f' =>
      match codec m out with
      | Undecodable msg => (Raise (UnicodeDecodeError msg), f')
      | Text o =>
          match codec m err with
          | Undecodable msg => (Raise (UnicodeDecodeError msg), f')
          | Text e => (Ok (rc, replace_cr (replace_crlf o),
                           replace_cr (replace_crlf e)), f')
          end
      end
  end.

(** The command lines a run starts, as the outcome of stage 1 decides:
    stage 2 is started after a stage 1 that exited with status zero and
    whose output decoded. *)
Definition stages_run (m : machine) (f : filesystem) : list string :=
  tsc_cmd ::
  match child_result m tsc_cmd f with
  | (Ok (rc, _, _), _) => if rc =? 0 then [node_cmd] else []
  | (Raise _, _) => []
  end.

(** The exit status the script's two explicit checks decide: 1 when a
    stage gave a result with a status other than zero, 0 otherwise. *)
Definition expected_status (m : machine) (f : filesystem) : Z :=
  match child_result m tsc_cmd f with
  | (Raise _, _) => 0
  | (Ok (rc1, _, _), f1) =>
      if rc1 =? 0 then
        match child_result m node_cmd f1 with
        | (Raise _, _) => 0
        | (Ok (rc2, _, _), _) => if rc2 =? 0 then 0 else 1
        end
      else 1
  end.

(** ** The staging step, as a relation between file systems *)

(** The two patterns of the staging loop. *)
Definition staging_pattern (pattern : string) : Prop :=
  pattern = "*.cpp" \/ pattern = "*.h".

(** The body of the inner loop of the staging step. *)
Definition copy_one (m : machine) (file_path : path) : M unit :=
  (let dest_path := ["src"] ++ [path_name file_path] in
   shutil_copy2 m file_path dest_path ;;
   print ("   Copied " ++ path_name file_path ++ " to src/"))%py.

(** Where [copy2] puts [generated/n]: at [src/n], or inside it when
    [src/n] is a directory. *)
Definition dest (f : filesystem) (n : string) : path :=
  if is_dir f ["src"; n] then ["src"; n; n] else ["src"; n].

(** The node that the copy of [generated/n] writes at [dest f n], when the
    copy can be made: the source is a regular file, the directory of the
    destination exists and the destination is not itself a directory. *)
Definition copyable (f : filesystem) (n : string) : option node :=
  match f !! ["generated"; n] with
  | Some (File data t) =>
      if is_dir f (removelast (dest f n)) && negb (is_dir f (dest f n))
      then Some (File data t) else None
  | _ => None
  end.

(** The file system after the copy of [generated/n], holding [x], made at
    the time [now] in a state [f] reached from [f0]: a destination that is
    new gives its directory the time stamp [now]. *)
Definition with_copy (now : Z) (f0 f : filesystem) (n : string) (x : node) :
    filesystem :=
  <[dest f0 n := x]>
    (if exists_path f (dest f0 n) then f
     else <[removelast (dest f0 n) := Dir now]> f).

(** The copies that a loop over [files] makes when none fails. *)
Definition copies_of (f0 : filesystem) (files : list path) : list (path * path) :=
  (fun p => (p, dest f0 (path_name p))) <$> files.

(** [f] differs from [f0] by the staging of files only: every path
    either leads to what it led to in [f0]; or is the destination of a
    file of the transpiler output of [f0] and leads to a copy of it; or is
    the directory that received a staged file that was not there in [f0],
    and is still a directory, with another time stamp. *)
Definition staged_from (f0 f : filesystem) : Prop :=
  forall q,
    f !! q = f0 !! q \/
    (exists n data t,
       (["generated"; n], File data t) ∈ transpiler_output f0 /\
       q = dest f0 n /\
       f !! q = Some (File data t) /\
       is_dir f0 q = false) \/
    (exists n data t t0 t1,
       (["generated"; n], File data t) ∈ transpiler_output f0 /\
       q = removelast (dest f0 n) /\
       f0 !! dest f0 n = None /\
       f0 !! q = Some (Dir t0) /\
       f !! q = Some (Dir t1)).

(** The copies of the files named [ns] are in place. *)
Definition copied (f0 f : filesystem) (ns : list string) : Prop :=
  forall n x, n ∈ ns -> copyable f0 n = Some x -> f !! dest f0 n = Some x.





(** ** Machines and projects to run the script on *)

(** The value of a byte. *)
Definition byte_value (b : byte) : Z := Z.of_N (Byte.to_N b).

(** [x] with two hexadecimal digits. *)
Definition hex2 (x : Z) : string :=
  substring (Z.to_nat (x / 16)) 1 "0123456789abcdef" ++
  substring (Z.to_nat (x mod 16)) 1 "0123456789abcdef".

Definition continuation_byte (c : Z) : bool := (0x80 <=? c) && (c <? 0xC0).

(** A second byte that a first byte [c] excludes: one that would encode a
    value with fewer bytes than it needs, a surrogate, or a value beyond
    the last code point. *)
Definition excluded_second_byte (c c2 : Z) : bool :=
  (c =? 0xE0) && (c2 <? 0xA0) || (c =? 0xED) && (0xA0 <=? c2) ||
  (c =? 0xF0) && (c2 <? 0x90) || (c =? 0xF4) && (0x90 <=? c2).

(** The first error of the UTF-8 decoder of CPython in [data], which
    starts at the position [pos] of the stream: the first byte of the
    sequence, its position, the position after the bytes at fault and the
    reason. *)
Fixpoint utf_8_error (data : list Z) (pos : Z) : option (Z * Z * Z * string) :=
  match data with
  | [] => None
  | c :: d1 =>
      if c <? 0x80 then utf_8_error d1 (pos + 1)
      else if (c <? 0xC2) || (0xF5 <=? c)
      then Some (c, pos, pos + 1, "invalid start byte")
      else
        match d1 with
        | [] => Some (c, pos, pos + 1, "unexpected end of data")
        | c2 :: d2 =>
            if negb (continuation_byte c2) || excluded_second_byte c c2
            then Some (c, pos, pos + 1, "invalid continuation byte")
            else if c <? 0xE0 then utf_8_error d2 (pos + 2)
            else
              match d2 with
              | [] => Some (c, pos, pos + 2, "unexpected end of data")
              | c3 :: d3 =>
                  if negb (continuation_byte c3)
                  then Some (c, pos, pos + 2, "invalid continuation byte")
                  else if c <? 0xF0 then utf_8_error d3 (pos + 3)
                  else
                    match d3 with
                    | [] => Some (c, pos, pos + 3, "unexpected end of data")
                    | c4 :: d4 =>
                        if negb (continuation_byte c4)
                        then Some (c, pos, pos + 3, "invalid continuation byte")
                        else utf_8_error d4 (pos + 4)
                    end
              end
        end
  end.

(** [data.decode("utf-8", "strict")], the codec of a UTF-8 locale. *)
Definition utf_8 (data : list byte) : decoded :=
  match utf_8_error (byte_value <$> data) 0 with
  | None => Text (string_of_list_byte data)
  | Some (c, start, stop, reason) =>
      Undecodable
        ("'utf-8' codec can't decode " ++
         (if stop =? start + 1
          then "byte 0x" ++ hex2 c ++ " in position " ++ pretty start
          else "bytes in position " ++ pretty start ++ "-" ++ pretty (stop - 1)) ++
         ": " ++ reason)
  end.

(** A clock that starts at 1000 and moves on with every effect. *)
Definition ticking (t : list event) : Z := 1000 + Z.of_nat (length t).

(** The machine with a UTF-8 locale and that clock on which command
    lines behave as [sh] says. *)
Definition machine_of (sh : string -> filesystem -> spawn_outcome) : machine :=
  {| shell := sh; codec := utf_8; clock := ticking |}.

(** Command lines that all exit with status [rc], write [out] and [err],
    and touch no file. *)
Definition shell_exit (rc : Z) (out err : string) :
    string -> filesystem -> spawn_outcome :=
  fun _ f => Exited rc (list_byte_of_string out) (list_byte_of_string err) f.

(** The compiler succeeds and the transpiler fails. *)
Definition shell_node_fails : string -> filesystem -> spawn_outcome :=
  fun cmd f =>
    if String.eqb cmd tsc_cmd then Exited 0 [] [] f
    else Exited 1 [] (list_byte_of_string "parse error") f.

(** No child process can be started. *)
Definition shell_unavailable : string -> filesystem -> spawn_outcome :=
  fun _ _ => SpawnFailed "[Errno 2] No such file or directory: '/bin/sh'".

(** Command lines that all exit with status 2 after writing the byte
    [0xff], which starts no UTF-8 sequence, on their standard output. *)
Definition shell_garbled : string -> filesystem -> spawn_outcome :=
  fun _ f => Exited 2 [xff] (list_byte_of_string "error TS2304") f.

(** A project after a successful transpilation: two staged files, one of
    them already present in [src/], and a file in a subdirectory of
    [generated/] whose name is also that of a file of [src/]. *)
Definition project_fs : filesystem :=
  list_to_map
    [(["src"], Dir 10);
     (["src"; "main.cn"], File "u8 led <- 13;" 30);
     (["src"; "main.cpp"], File "// stale" 20);
     (["src"; "extra.cpp"], File "// hand written" 5);
     (["generated"], Dir 40);
     (["generated"; "main.cpp"], File "uint8_t led = 13;" 41);
     (["generated"; "main.h"], File "#pragma once" 42);
     (["generated"; "sub"], Dir 40);
     (["generated"; "sub"; "extra.cpp"], File "// nested" 1)].

(** The same project before any transpilation: no [generated/]. *)
Definition fresh_fs : filesystem :=
  list_to_map
    [(["src"], Dir 10);
     (["src"; "main.cn"], File "u8 led <- 13;" 30)].

(** ** Proof tools *)

(** The steps of the staging step are reasoned about through their
    lemmas, not unfolded by [simpl]. *)
Arguments stage_generated : simpl never.
Arguments copy_pattern : simpl never.
Arguments glob_list : simpl never.
Arguments run_command : simpl never.

(** Runs the script up to the next call of the machine. *)
Ltac unfold_py :=
  unfold run, script, main, main_body, run_command, subprocess_run,
    translate_newlines, try_except, sys_exit, print, traceback_print_exc,
    path_exists, bind, ret, raise, emit, get_fs, put_fs, log, set_fs in *;
  simpl in *.

(** Runs the script up to the next call of [run_command]. *)
Ltac unfold_script :=
  unfold run, script, main, main_body, try_except, sys_exit, print,
    traceback_print_exc, bind, ret, raise, emit, log;
  simpl.

(** ** Further reference definitions *)

(** The copies [cs] are in place in [f]: each is the copy of a regular
    file of the transpiler output of [f0], stands at its destination, and
    the destination holds the data and the time stamp of the source. *)
Definition in_place (f0 f : filesystem) (cs : list (path * path)) : Prop :=
  forall s d, (s, d) ∈ cs ->
    exists n data t,
      s = ["generated"; n] /\
      (s, File data t) ∈ transpiler_output f0 /\
      d = dest f0 n /\
      f !! d = Some (File data t).

(** The file system as the child processes of a run leave it: stage 2 is
    started only after a stage 1 that gave a result with status zero. *)
Definition tools_fs (m : machine) (f : filesystem) : filesystem :=
  match child_result m tsc_cmd f with
  | (Ok (rc1, _, _), f1) =>
      if rc1 =? 0 then (child_result m node_cmd f1).2 else f1
  | (Raise _, f1) => f1
  end.

(** Both stages ran to their end with status zero and output that
    decodes. *)
Definition both_stages_ok (m : machine) (f : filesystem) : bool :=
  match child_result m tsc_cmd f with
  | (Ok (rc1, _, _), f1) =>
      (rc1 =? 0) &&
      match child_result m node_cmd f1 with
      | (Ok (rc2, _, _), _) => rc2 =? 0
      | (Raise _, _) => false
      end
  | (Raise _, _) => false
  end.

(** What the script lets through of what stage 1 gave: the exception if
    there is one; else the exit status and, when it is not zero, the error
    text; never the standard output. *)
Definition shown_of_stage1 (r : result (Z * string * string) * filesystem) :
    result (Z * string * string) * filesystem :=
  match r with
  | (Ok (rc, _, err), f) => (Ok (rc, "", if rc =? 0 then "" else err), f)
  | (Raise e, f) => (Raise e, f)
  end.

(** What it lets through of what stage 2 gave: the exception if there is
    one; else the exit status, the standard output when the status is zero
    and the error text when it is not. *)
Definition shown_of_stage2 (r : result (Z * string * string) * filesystem) :
    result (Z * string * string) * filesystem :=
  match r with
  | (Ok (rc, out, err), f) =>
      (Ok (rc, if rc =? 0 then out else "", if rc =? 0 then "" else err), f)
  | (Raise e, f) => (Raise e, f)
  end.

(** Tools that succeed and talk: the compiler on both streams, the
    transpiler with a notice on its error stream. *)
Definition shell_chatty : string -> filesystem -> spawn_outcome :=
  fun cmd f =>
    if String.eqb cmd tsc_cmd
    then Exited 0 (list_byte_of_string "Files: 12")
           (list_byte_of_string "deprecation warning") f
    else Exited 0 (list_byte_of_string "Transpiled 1 file")
           (list_byte_of_string "npm notice") f.

(** The fresh project with a library directory in [src/], and the same
    with a source file in that directory. *)
Definition library_fs : filesystem :=
  <[ ["src"; "lib"] := Dir 50 ]> fresh_fs.

Definition nested_source_fs : filesystem :=
  <[ ["src"; "lib"; "deep.cn"] := File "u8 x <- 1;" 999 ]> library_fs.

(** * Lemmas *)

(** ** Strings and patterns *)

Lemma fnmatch_literal lit name :
  wildcard_free lit = true -> fnmatch lit name = String.eqb name lit.
Proof.
  revert name; induction lit as [|c lit IH]; intros name Hw.
  - destruct name; reflexivity.
  - simpl in Hw. apply andb_prop in Hw as [Hc Hw].
    apply andb_prop in Hc as [Hstar Hq].
    apply negb_true_iff in Hstar, Hq.
    simpl. rewrite Hstar, Hq. destruct name as [|d name]; [reflexivity|].
    simpl. rewrite IH by assumption.
    rewrite (Ascii.eqb_sym c d). reflexivity.
Qed.

Lemma fnmatch_star_extension ext name :
  wildcard_free ext = true ->
  fnmatch (String "*" ext) name = has_extension ext name.
Proof.
  intros Hw. induction name as [|d name IH].
  - change (fnmatch (String "*" ext) "") with (fnmatch ext "" || false).
    rewrite fnmatch_literal by assumption. reflexivity.
  - change (fnmatch (String "*" ext) (String d name))
      with (fnmatch ext (String d name) || fnmatch (String "*" ext) name).
    rewrite IH, fnmatch_literal by assumption. reflexivity.
Qed.

(** Two extensions of one name: one of them ends with the other. *)
Lemma has_extension_comparable e1 e2 name :
  has_extension e1 name = true -> has_extension e2 name = true ->
  has_extension e1 e2 = true \/ has_extension e2 e1 = true.
Proof.
  induction name as [|c name IH]; intros H1 H2.
  - cbn [has_extension] in H1, H2. rewrite orb_false_r in H1, H2.
    apply String.eqb_eq in H1, H2. subst. left. reflexivity.
  - destruct (String.eqb_spec (String c name) e1) as [<-|N1].
    { right. exact H2. }
    destruct (String.eqb_spec (String c name) e2) as [<-|N2].
    { left. exact H1. }
    cbn [has_extension] in H1, H2.
    apply String.eqb_neq in N1, N2. rewrite N1 in H1. rewrite N2 in H2.
    auto.
Qed.

Lemma child_name_spec dir p n :
  child_name dir p = Some n <-> p = dir ++ [n].
Proof.
  revert p; induction dir as [|d dir IH]; intros p; simpl.
  - destruct p as [|c [|c' p]]; split; intros H; simplify_eq; reflexivity.
  - destruct p as [|c p]; [split; intros H; simplify_eq|].
    destruct (String.eqb_spec d c) as [->|Hne].
    + rewrite IH. split; intros H; simplify_eq; reflexivity.
    + split; intros H; simplify_eq.
Qed.

Lemma glob_match_spec dir pattern p :
  glob_match dir pattern p = true <->
  exists n, p = dir ++ [n] /\ fnmatch pattern n = true.
Proof.
  unfold glob_match. split.
  - destruct (child_name dir p) as [n|] eqn:E; [|discriminate].
    apply child_name_spec in E. eauto.
  - intros (n & -> & Hn).
    rewrite (proj2 (child_name_spec dir (dir ++ [n]) n) eq_refl). exact Hn.
Qed.

(** ** The command runner *)

Section CommandRunner.

Variable m : machine.

(** [run_command], run: one child is started, and what comes back is what
    [child_result] tells. *)
Lemma run_command_child_result cmd w :
  run_command m cmd w =
    (match (child_result m cmd (fs w)).1 with
     | Ok (rc, out, err) => Ok (rc =? 0, out, err)
     | Raise e => Raise e
     end,
     World (child_result m cmd (fs w)).2 (trace w ++ [EvSpawn cmd])).
Proof.
  unfold child_result. unfold_py.
  destruct (shell m cmd (fs w)) as [rc out err f'|msg]; simpl; [|reflexivity].
  destruct (codec m out) as [o|msg]; simpl; [|reflexivity].
  destruct (codec m err) as [e|msg]; simpl; [|reflexivity].
  destruct (rc =? 0); reflexivity.
Qed.

Lemma run_command_exited cmd w rc out err f' :
  child_result m cmd (fs w) = (Ok (rc, out, err), f') ->
  run_command m cmd w =
    (Ok (rc =? 0, out, err), World f' (trace w ++ [EvSpawn cmd])).
Proof. intros H. rewrite run_command_child_result, H. reflexivity. Qed.

Lemma run_command_raised cmd w e f' :
  child_result m cmd (fs w) = (Raise e, f') ->
  run_command m cmd w = (Raise e, World f' (trace w ++ [EvSpawn cmd])).
Proof. intros H. rewrite run_command_child_result, H. reflexivity. Qed.

Lemma child_result_spawn_failed cmd f msg :
  shell m cmd f = SpawnFailed msg ->
  child_result m cmd f = (Raise (OSError msg), f).
Proof. intros H. unfold child_result. rewrite H. reflexivity. Qed.

Lemma run_command_spawn_failed cmd w msg :
  shell m cmd (fs w) = SpawnFailed msg ->
  run_command m cmd w =
    (Raise (OSError msg), World (fs w) (trace w ++ [EvSpawn cmd])).
Proof.
  intros H. apply run_command_raised. by apply child_result_spawn_failed.
Qed.

(** What [subprocess.run] raises here is caught by [except Exception]. *)
Lemma child_result_Exception cmd f e f' :
  child_result m cmd f = (Raise e, f') -> is_Exception e = true.
Proof.
  unfold child_result.
  destruct (shell m cmd f) as [rc out err f''|msg].
  - destruct (codec m out) as [o|msg].
    + destruct (codec m err) as [e'|msg]; intros H; inversion H; reflexivity.
    + intros H; inversion H; reflexivity.
  - intros H; inversion H; reflexivity.
Qed.

End CommandRunner.

(** ** What an action can add to the trace *)

Section Emits.

Context (P : event -> Prop).

Lemma emits_ret {A} (a : A) : emits P (ret a).
Proof.
  intros w r w' H. inversion H; subst. exists [].
  rewrite app_nil_r. auto.
Qed.

Lemma emits_raise {A} e : emits P (@raise A e).
Proof.
  intros w r w' H. inversion H; subst. exists [].
  rewrite app_nil_r. auto.
Qed.

Lemma emits_get_fs : emits P get_fs.
Proof.
  intros w r w' H. inversion H; subst. exists [].
  rewrite app_nil_r. auto.
Qed.

Lemma emits_put_fs f : emits P (put_fs f).
Proof.
  intros w r w' H. inversion H; subst. exists [].
  simpl. rewrite app_nil_r. auto.
Qed.

Lemma emits_emit e : P e -> emits P (emit e).
Proof.
  intros He w r w' H. inversion H; subst. exists [e]. simpl. auto.
Qed.

Lemma emits_bind {A B} (c : M A) (k : A -> M B) :
  emits P c -> (forall a, emits P (k a)) -> emits P (bind c k).
Proof.
  intros Hc Hk w r w' H. unfold bind in H.
  destruct (c w) as [[a|e] w1] eqn:E.
  - destruct (Hc _ _ _ E) as (evs1 & T1 & F1).
    destruct (Hk a _ _ _ H) as (evs2 & T2 & F2).
    exists (evs1 ++ evs2). rewrite T2, T1, app_assoc.
    split; [reflexivity | by apply Forall_app].
  - inversion H; subst. eauto.
Qed.

Lemma emits_for_each {A} (xs : list A) body :
  (forall x, emits P (body x)) -> emits P (for_each xs body).
Proof.
  intros Hb. induction xs as [|x xs IH]; simpl.
  - apply emits_ret.
  - apply emits_bind; auto.
Qed.

Lemma emits_map_M {A B} (f : A -> M B) (xs : list A) :
  (forall x, emits P (f x)) -> emits P (map_M f xs).
Proof.
  intros Hf. induction xs as [|x xs IH]; simpl.
  - apply emits_ret.
  - apply emits_bind; [auto|]. intros y.
    apply emits_bind; [auto|]. intros ys. apply emits_ret.
Qed.

Lemma emits_if {A} (b : bool) (c1 c2 : M A) :
  emits P c1 -> emits P c2 -> emits P (if b then c1 else c2).
Proof. destruct b; auto. Qed.

Lemma emits_print s : P (EvStdout s) -> emits P (print s).
Proof. apply emits_emit. Qed.

Lemma emits_glob dir pattern :
  P (EvGlob dir pattern) -> emits P (glob dir pattern).
Proof.
  intros H. unfold glob. apply emits_bind; [by apply emits_emit|].
  intros _. apply emits_bind; [apply emits_get_fs|].
  intros f. apply emits_ret.
Qed.

Lemma emits_time_now m : emits P (time_now m).
Proof.
intros w r w' H. inversion H; subst. exists [].
rewrite app_nil_r. auto.
Qed.

Lemma emits_shutil_copy2 m src dst :
(forall d, P (EvCopy src d)) -> emits P (shutil_copy2 m src dst).
Proof.
intros H. unfold shutil_copy2. apply emits_bind; [apply emits_get_fs|].
intros f. unfold shutil_copyfile_copystat.
apply emits_bind; [apply emits_get_fs|]. intros f'.
apply emits_if; [apply emits_raise|].
destruct (f' !! src) as [[data t|t]|]; try apply emits_raise.
repeat (apply emits_if; [apply emits_raise|]).
apply emits_bind; [apply emits_time_now|]. intros now.
apply emits_bind; [apply emits_put_fs|]. intros _. by apply emits_emit.
Qed.

End Emits.

Lemma emits_stage_generated m : emits staging_event (stage_generated m).
Proof.
  unfold stage_generated, path_exists.
  apply emits_bind.
  { apply emits_bind; [apply emits_get_fs|]. intros f. apply emits_ret. }
  intros ex. apply emits_if; [|apply emits_ret].
  apply emits_bind; [by apply emits_print|]. intros _.
  apply emits_for_each. intros pattern. unfold copy_pattern.
  apply emits_bind; [by apply emits_glob|]. intros files.
  apply emits_for_each. intros file_path.
  apply emits_bind; [by apply emits_shutil_copy2|]. intros _.
  by apply emits_print.
Qed.

Lemma staging_event_spawned evs :
  Forall staging_event evs -> spawned evs = [].
Proof.
  induction 1 as [|e evs He _ IH]; [reflexivity|].
  destruct e; simpl in *; try contradiction; exact IH.
Qed.

Lemma staging_event_not_detector evs :
  Forall staging_event evs ->
  Forall (fun e => consults_detector e = false) evs.
Proof.
  intros H. eapply Forall_impl; [exact H|]. intros e He.
  destruct e; simpl in *; try contradiction; try reflexivity.
  subst. reflexivity.
Qed.

Section RaisesOnly.

Context (Q : exn -> Prop).

Lemma raises_ret {A} (a : A) : raises_only Q (ret a).
Proof. intros w e w' H. discriminate. Qed.

Lemma raises_get_fs : raises_only Q get_fs.
Proof. intros w e w' H. discriminate. Qed.

Lemma raises_emit ev : raises_only Q (emit ev).
Proof. intros w e w' H. discriminate. Qed.

Lemma raises_put_fs f : raises_only Q (put_fs f).
Proof. intros w e w' H. discriminate. Qed.

Lemma raises_time_now m : raises_only Q (time_now m).
Proof. intros w e w' H. discriminate. Qed.

Lemma raises_raise {A} e : Q e -> raises_only Q (@raise A e).
Proof. intros He w e' w' H. inversion H; subst. exact He. Qed.

Lemma raises_bind {A B} (c : M A) (k : A -> M B) :
  raises_only Q c -> (forall a, raises_only Q (k a)) ->
  raises_only Q (bind c k).
Proof.
  intros Hc Hk w e w' H. unfold bind in H.
  destruct (c w) as [[a|e1] w1] eqn:E.
  - eapply Hk, H.
  - inversion H; subst. eapply Hc, E.
Qed.

Lemma raises_if {A} (b : bool) (c1 c2 : M A) :
  raises_only Q c1 -> raises_only Q c2 ->
  raises_only Q (if b then c1 else c2).
Proof. destruct b; auto. Qed.

Lemma raises_for_each {A} (xs : list A) body :
  (forall x, raises_only Q (body x)) -> raises_only Q (for_each xs body).
Proof.
  intros Hb. induction xs as [|x xs IH]; simpl.
  - apply raises_ret.
  - apply raises_bind; auto.
Qed.

End RaisesOnly.

Lemma shutil_copy2_raises m src dst :
  raises_only is_OSError (shutil_copy2 m src dst).
Proof.
  unfold shutil_copy2. apply raises_bind; [apply raises_get_fs|].
  intros f. unfold shutil_copyfile_copystat.
  apply raises_bind; [apply raises_get_fs|]. intros f'.
  apply raises_if; [apply raises_raise; exact I|].
  destruct (f' !! src) as [[data t|t]|];
    try (apply raises_raise; exact I).
  repeat (apply raises_if; [apply raises_raise; exact I|]).
  apply raises_bind; [apply raises_time_now|]. intros now.
  apply raises_bind; [apply raises_put_fs|]. intros _. apply raises_emit.
Qed.

Lemma stage_generated_raises m : raises_only is_OSError (stage_generated m).
Proof.
  unfold stage_generated, path_exists.
  apply raises_bind.
  { apply raises_bind; [apply raises_get_fs|]. intros f. apply raises_ret. }
  intros ex. apply raises_if; [|apply raises_ret].
  apply raises_bind; [apply raises_emit|]. intros _.
  apply raises_for_each. intros pattern. unfold copy_pattern.
  apply raises_bind.
  { unfold glob. apply raises_bind; [apply raises_emit|]. intros _.
    apply raises_bind; [apply raises_get_fs|]. intros f. apply raises_ret. }
  intros files. apply raises_for_each. intros file_path.
  apply raises_bind; [apply shutil_copy2_raises|]. intros _.
  apply raises_emit.
Qed.

Lemma is_OSError_Exception e : is_OSError e -> is_Exception e = true.
Proof. destruct e; simpl; intros H; try contradiction; reflexivity. Qed.

(** ** The pipeline, outcome by outcome *)

Section Pipeline.

Variable m : machine.

Lemma script_stage1_raised w e f1 :
  child_result m tsc_cmd (fs w) = (Raise e, f1) ->
  script m w = (Ok tt, World f1 (trace w ++ preamble ++ swallowed e)).
Proof.
  intros H. pose proof (child_result_Exception _ _ _ _ _ H) as He.
  unfold_script. rewrite run_command_child_result. simpl. rewrite H. simpl.
  rewrite He. simpl. rewrite <- !app_assoc. reflexivity.
Qed.

Lemma script_spawn1_failed w msg :
  shell m tsc_cmd (fs w) = SpawnFailed msg ->
  script m w =
    (Ok tt, World (fs w) (trace w ++ preamble ++ swallowed (OSError msg))).
Proof.
  intros H. apply script_stage1_raised. by apply child_result_spawn_failed.
Qed.

Lemma script_stage1_failed w rc out err f' :
  child_result m tsc_cmd (fs w) = (Ok (rc, out, err), f') -> rc <> 0 ->
  script m w =
    (Raise (SystemExit 1),
     World f' (trace w ++ preamble ++
               [EvStdout ("❌ TypeScript compilation failed: " ++ err)])).
Proof.
  intros H Hrc. apply Z.eqb_neq in Hrc.
  unfold_script. rewrite run_command_child_result. simpl. rewrite H. simpl.
  rewrite Hrc. simpl. rewrite <- !app_assoc. reflexivity.
Qed.

Lemma script_stage2_raised w out1 err1 f1 e f2 :
  child_result m tsc_cmd (fs w) = (Ok (0, out1, err1), f1) ->
  child_result m node_cmd f1 = (Raise e, f2) ->
  script m w =
    (Ok tt, World f2 (trace w ++ preamble ++ transpiling ++ swallowed e)).
Proof.
  intros H1 H2. pose proof (child_result_Exception _ _ _ _ _ H2) as He.
  unfold_script. rewrite run_command_child_result. simpl. rewrite H1. simpl.
  rewrite run_command_child_result. simpl. rewrite H2. simpl.
  rewrite He. simpl. rewrite <- !app_assoc. reflexivity.
Qed.

Lemma script_spawn2_failed w out1 err1 f1 msg :
  child_result m tsc_cmd (fs w) = (Ok (0, out1, err1), f1) ->
  shell m node_cmd f1 = SpawnFailed msg ->
  script m w =
    (Ok tt, World f1 (trace w ++ preamble ++ transpiling ++
                      swallowed (OSError msg))).
Proof.
  intros H1 H2. eapply script_stage2_raised; [exact H1|].
  by apply child_result_spawn_failed.
Qed.

Lemma script_stage2_failed w out1 err1 f1 rc out2 err2 f2 :
  child_result m tsc_cmd (fs w) = (Ok (0, out1, err1), f1) ->
  child_result m node_cmd f1 = (Ok (rc, out2, err2), f2) -> rc <> 0 ->
  script m w =
    (Raise (SystemExit 1),
     World f2 (trace w ++ preamble ++ transpiling ++
               [EvStdout ("❌ c-next transpilation failed: " ++ err2)])).
Proof.
  intros H1 H2 Hrc. apply Z.eqb_neq in Hrc.
  unfold_script. rewrite run_command_child_result. simpl. rewrite H1. simpl.
  rewrite run_command_child_result. simpl. rewrite H2. simpl.
  rewrite Hrc. simpl. rewrite <- !app_assoc. reflexivity.
Qed.

Lemma script_both_ok w out1 err1 f1 out2 err2 f2 :
  child_result m tsc_cmd (fs w) = (Ok (0, out1, err1), f1) ->
  child_result m node_cmd f1 = (Ok (0, out2, err2), f2) ->
  script m w =
    finish (stage_generated m
              (World f2 (trace w ++ preamble ++ transpiling ++
                         [EvStdout out2]))).
Proof.
  intros H1 H2.
  unfold_script. rewrite run_command_child_result. simpl. rewrite H1. simpl.
  rewrite run_command_child_result. simpl. rewrite H2. simpl.
  rewrite <- !app_assoc. simpl.
  destruct (stage_generated _ _) as [[[]|e] ws]; simpl; [reflexivity|].
  destruct (is_Exception e); [|reflexivity].
  unfold swallowed. rewrite <- app_assoc. reflexivity.
Qed.

(** The five ways of a run, by what the two stages give. *)
Lemma script_cases w :
  (exists e f1,
     child_result m tsc_cmd (fs w) = (Raise e, f1) /\
     script m w = (Ok tt, World f1 (trace w ++ preamble ++ swallowed e))) \/
  (exists rc out err f1,
     child_result m tsc_cmd (fs w) = (Ok (rc, out, err), f1) /\ rc <> 0 /\
     script m w =
       (Raise (SystemExit 1),
        World f1 (trace w ++ preamble ++
                  [EvStdout ("❌ TypeScript compilation failed: " ++ err)]))) \/
  (exists out1 err1 f1,
     child_result m tsc_cmd (fs w) = (Ok (0, out1, err1), f1) /\
     ((exists e f2,
         child_result m node_cmd f1 = (Raise e, f2) /\
         script m w =
           (Ok tt, World f2 (trace w ++ preamble ++ transpiling ++
                             swallowed e))) \/
      (exists rc out err f2,
         child_result m node_cmd f1 = (Ok (rc, out, err), f2) /\ rc <> 0 /\
         script m w =
           (Raise (SystemExit 1),
            World f2 (trace w ++ preamble ++ transpiling ++
                      [EvStdout ("❌ c-next transpilation failed: " ++ err)]))) \/
      (exists out2 err2 f2,
         child_result m node_cmd f1 = (Ok (0, out2, err2), f2) /\
         script m w =
           finish (stage_generated m
                     (World f2 (trace w ++ preamble ++ transpiling ++
                                [EvStdout out2])))))).
Proof.
  destruct (child_result m tsc_cmd (fs w)) as [[[[rc1 out1] err1]|e1] f1] eqn:H1.
  2:{ left. exists e1, f1. split; [reflexivity|]. by apply script_stage1_raised. }
  destruct (Z.eqb_spec rc1 0) as [->|Hrc1].
  2:{ right; left. exists rc1, out1, err1, f1. split; [reflexivity|].
      split; [exact Hrc1|]. exact (script_stage1_failed w _ _ _ _ H1 Hrc1). }
  right; right. exists out1, err1, f1. split; [reflexivity|].
  destruct (child_result m node_cmd f1) as [[[[rc2 out2] err2]|e2] f2] eqn:H2.
  2:{ left. exists e2, f2. split; [reflexivity|].
      exact (script_stage2_raised w _ _ _ _ _ H1 H2). }
  destruct (Z.eqb_spec rc2 0) as [->|Hrc2].
  2:{ right; left. exists rc2, out2, err2, f2. split; [reflexivity|].
      split; [exact Hrc2|].
      exact (script_stage2_failed w _ _ _ _ _ _ _ H1 H2 Hrc2). }
  right; right. exists out2, err2, f2. split; [reflexivity|].
  exact (script_both_ok w _ _ _ _ _ _ H1 H2).
Qed.

End Pipeline.

(** ** The detector and the trace *)

Section Run.

Variable m : machine.

Lemma spawned_app evs1 evs2 :
  spawned (evs1 ++ evs2) = spawned evs1 ++ spawned evs2.
Proof. apply omap_app. Qed.

Lemma copies_app evs1 evs2 :
  copies (evs1 ++ evs2) = copies evs1 ++ copies evs2.
Proof. apply omap_app. Qed.

Lemma emits_stat_mtime P p : P (EvStat p) -> emits P (stat_mtime p).
Proof.
  intros H. unfold stat_mtime. apply emits_bind; [by apply emits_emit|].
  intros _. apply emits_bind; [apply emits_get_fs|]. intros f.
  destruct (f !! p); [apply emits_ret | apply emits_raise].
Qed.

Lemma emits_py_max P xs : emits P (py_max xs).
Proof. destruct xs; [apply emits_raise | apply emits_ret]. Qed.

Lemma emits_py_min P xs : emits P (py_min xs).
Proof. destruct xs; [apply emits_raise | apply emits_ret]. Qed.

(** Every call of the detector starts by listing [src/]. *)
Lemma detector_leaves_a_mark w :
  exists evs,
    trace (check_if_transpilation_needed w).2 =
      trace w ++ EvGlob ["src"] "*.cn" :: evs.
Proof.
  unfold check_if_transpilation_needed.
  unfold bind at 1. unfold glob at 1.
  unfold bind at 1. unfold emit at 1.
  unfold bind at 1. unfold get_fs at 1. unfold ret at 1.
  match goal with |- context [(?k ?l (log ?e w))] =>
    destruct (k l (log e w)) as [r w'] eqn:E;
    assert (Hk : emits (fun _ => True) (k l))
  end.
  { repeat first
      [ apply emits_ret | apply emits_py_max | apply emits_py_min
      | apply emits_if | apply emits_glob; exact I
      | apply emits_map_M; intros; apply emits_stat_mtime; exact I
      | apply emits_bind; [|intros] ]. }
  destruct (Hk _ _ _ E) as (evs & T & _). exists evs.
  simpl. rewrite T. simpl. rewrite <- app_assoc. reflexivity.
Qed.

Lemma run_world w : (run m w).2 = (script m w).2.
Proof. unfold run. destruct (script m w); reflexivity. Qed.

Lemma run_status w : (run m w).1 = exit_status (script m w).1.
Proof. unfold run. destruct (script m w); reflexivity. Qed.

Lemma finish_events w0 rw :
  (exists evs, trace rw.2 = trace w0 ++ evs /\ Forall staging_event evs) ->
  exists evs,
    trace (finish rw).2 = trace w0 ++ evs /\
    Forall (fun e => consults_detector e = false) evs /\
    spawned evs = [].
Proof.
  intros (evs & T & F). destruct rw as [[[]|e] ws]; simpl in *.
  - exists (evs ++ [EvStdout "✅ c-next transpilation completed!"]).
    rewrite T, <- app_assoc. split; [reflexivity|]. split.
    + apply Forall_app. split; [by apply staging_event_not_detector|].
      repeat constructor.
    + rewrite spawned_app, staging_event_spawned by assumption. reflexivity.
  - destruct (is_Exception e); simpl.
    + exists (evs ++ swallowed e).
      rewrite T, <- app_assoc. split; [reflexivity|]. split.
      * apply Forall_app. split; [by apply staging_event_not_detector|].
        repeat constructor.
      * rewrite spawned_app, staging_event_spawned by assumption.
        reflexivity.
    + exists evs. split; [assumption|]. split.
      * by apply staging_event_not_detector.
      * by apply staging_event_spawned.
Qed.

(** What any run adds to the trace: no mark of the detector, and the
    stages in order. *)
Lemma script_events w :
  exists evs,
    trace (script m w).2 = trace w ++ evs /\
    Forall (fun e => consults_detector e = false) evs /\
    spawned evs = stages_run m (fs w).
Proof.
  unfold stages_run.
  destruct (script_cases m w)
    as [(e & f1 & H1 & E)
       |[(rc & out & err & f1 & H1 & Hrc & E)
        |(out1 & err1 & f1 & H1 &
          [(e & f2 & H2 & E)
          |[(rc & out & err & f2 & H2 & Hrc & E)
           |(out2 & err2 & f2 & H2 & E)]])]];
    rewrite H1, E; clear E.
  - simpl. eexists. split; [reflexivity|].
    split; [repeat constructor|reflexivity].
  - apply Z.eqb_neq in Hrc. rewrite Hrc. simpl.
    eexists. split; [reflexivity|]. split; [repeat constructor|reflexivity].
  - simpl. eexists. split; [reflexivity|].
    split; [repeat constructor|reflexivity].
  - simpl. eexists. split; [reflexivity|].
    split; [repeat constructor|reflexivity].
  - set (w0 := World f2 (trace w ++ preamble ++ transpiling ++ [EvStdout out2])).
    destruct (finish_events w0 (stage_generated m w0)) as (evs & T & F & S).
    { destruct (stage_generated m w0) as [r ws] eqn:E.
      exact (emits_stage_generated m _ _ _ E). }
    exists (preamble ++ transpiling ++ [EvStdout out2] ++ evs).
    rewrite T. unfold w0. simpl. rewrite <- !app_assoc. simpl.
    split; [reflexivity|]. split.
    + repeat (constructor; [reflexivity|]). exact F.
    + rewrite S. reflexivity.
Qed.

(** ** The staleness detector *)

Lemma py_max_foldr x xs :
  fold_left (fun m y => if m <? y then y else m) xs x = foldr Z.max x xs.
Proof.
  rewrite <- (fold_symmetric Z.max Z.max_assoc x (Z.max_comm x) xs).
  revert x. induction xs as [|y xs IH]; intros x; simpl; [reflexivity|].
  rewrite IH. f_equal. destruct (Z.ltb_spec x y); lia.
Qed.

Lemma py_min_foldr x xs :
  fold_left (fun m y => if y <? m then y else m) xs x = foldr Z.min x xs.
Proof.
  rewrite <- (fold_symmetric Z.min Z.min_assoc x (Z.min_comm x) xs).
  revert x. induction xs as [|y xs IH]; intros x; simpl; [reflexivity|].
  rewrite IH. f_equal. destruct (Z.ltb_spec y x); lia.
Qed.

(** The largest element is an element and bounds the others. *)
Lemma foldr_max_spec s S :
  foldr Z.max s S ∈ s :: S /\ forall y, y ∈ s :: S -> y <= foldr Z.max s S.
Proof.
  induction S as [|x S [IHin IHle]]; simpl.
  - split; [left|]. intros y Hy. apply list_elem_of_singleton in Hy. lia.
  - split.
    + destruct (Z.max_spec x (foldr Z.max s S)) as [[_ ->]|[_ ->]].
      * apply elem_of_cons in IHin as [->|Hin]; [left|do 2 right; exact Hin].
      * right; left.
    + intros y Hy. apply elem_of_cons in Hy as [->|Hy].
      * specialize (IHle s ltac:(left)). lia.
      * apply elem_of_cons in Hy as [->|Hy]; [lia|].
        specialize (IHle y ltac:(right; exact Hy)). lia.
Qed.

Lemma foldr_min_spec g G :
  foldr Z.min g G ∈ g :: G /\ forall y, y ∈ g :: G -> foldr Z.min g G <= y.
Proof.
  induction G as [|x G [IHin IHle]]; simpl.
  - split; [left|]. intros y Hy. apply list_elem_of_singleton in Hy. lia.
  - split.
    + destruct (Z.min_spec x (foldr Z.min g G)) as [[_ ->]|[_ ->]].
      * right; left.
      * apply elem_of_cons in IHin as [->|Hin]; [left|do 2 right; exact Hin].
    + intros y Hy. apply elem_of_cons in Hy as [->|Hy].
      * specialize (IHle g ltac:(left)). lia.
      * apply elem_of_cons in Hy as [->|Hy]; [lia|].
        specialize (IHle y ltac:(right; exact Hy)). lia.
Qed.

(** The verdict depends on the two sets of time stamps only, not on the
    order or the number of occurrences in the lists. *)
Lemma needsRegeneration_ext (S S' G G' : list Z) :
  (forall x, x ∈ S <-> x ∈ S') -> (forall x, x ∈ G <-> x ∈ G') ->
  needsRegeneration S G = needsRegeneration S' G'.
Proof.
  intros HS HG.
  destruct S as [|s S], S' as [|s' S']; simpl.
  - reflexivity.
  - exfalso. eapply not_elem_of_nil, HS. left.
  - exfalso. eapply not_elem_of_nil, HS. left.
  - destruct G as [|g G], G' as [|g' G']; simpl.
    + reflexivity.
    + exfalso. eapply not_elem_of_nil, HG. left.
    + exfalso. eapply not_elem_of_nil, HG. left.
    + destruct (foldr_max_spec s S) as [M1 M2].
      destruct (foldr_max_spec s' S') as [M1' M2'].
      destruct (foldr_min_spec g G) as [N1 N2].
      destruct (foldr_min_spec g' G') as [N1' N2'].
      apply HS in M1. apply HS in M1'. apply HG in N1. apply HG in N1'.
      specialize (M2 _ M1'). specialize (M2' _ M1).
      specialize (N2 _ N1'). specialize (N2' _ N1).
      replace (foldr Z.max s' S') with (foldr Z.max s S) by lia.
      replace (foldr Z.min g' G') with (foldr Z.min g G) by lia.
      reflexivity.
Qed.

Lemma elem_of_glob_list f dir pattern p :
  p ∈ glob_list f dir pattern <->
  is_dir f dir = true /\ is_Some (f !! p) /\
  exists n, p = dir ++ [n] /\ fnmatch pattern n = true.
Proof.
  unfold glob_list. destruct (is_dir f dir).
  - rewrite list_elem_of_filter, list_elem_of_fmap, Is_true_true, glob_match_spec.
    split.
    + intros [Hm ([q x] & -> & Hin)]. apply elem_of_map_to_list in Hin.
      simpl in *. eauto.
    + intros (_ & [x Hx] & Hm). split; [exact Hm|].
      exists (p, x). split; [reflexivity|]. by apply elem_of_map_to_list.
  - split; [intros H; inversion H|intros [H _]; discriminate].
Qed.

Lemma NoDup_glob_list f dir pattern : NoDup (glob_list f dir pattern).
Proof.
  unfold glob_list. destruct (is_dir f dir); [|constructor].
  apply NoDup_filter, NoDup_fst_map_to_list.
Qed.

Lemma in_dir_with_spec dir exts p :
  in_dir_with dir exts p = true <->
  exists n, p = [dir; n] /\ existsb (fun e => has_extension e n) exts = true.
Proof.
  unfold in_dir_with. split.
  - destruct p as [|d [|n [|]]]; try discriminate.
    intros H. apply andb_prop in H as [Hd Hn].
    apply String.eqb_eq in Hd. subst. eauto.
  - intros (n & -> & Hn). rewrite String.eqb_refl. exact Hn.
Qed.

Lemma elem_of_artifact_set dir exts f p x :
  (p, x) ∈ artifact_set dir exts f <->
  is_dir f [dir] = true /\ f !! p = Some x /\
  exists n, p = [dir; n] /\ existsb (fun e => has_extension e n) exts = true.
Proof.
  unfold artifact_set. destruct (is_dir f [dir]).
  - rewrite list_elem_of_filter, Is_true_true, in_dir_with_spec,
      elem_of_map_to_list. simpl. tauto.
  - split; [intros H; inversion H|intros [H _]; discriminate].
Qed.

Lemma map_M_stat_mtime f t l :
  (forall p, p ∈ l -> is_Some (f !! p)) ->
  map_M stat_mtime l (World f t) =
    (Ok (map (mtime_at f) l), World f (t ++ map EvStat l)).
Proof.
  revert t. induction l as [|p l IH]; intros t Hl; simpl.
  - unfold ret. rewrite app_nil_r. reflexivity.
  - destruct (Hl p ltac:(left)) as [x Hx].
    unfold bind at 1. unfold stat_mtime, bind, emit, get_fs, log. simpl.
    rewrite Hx. unfold ret at 1.
    unfold bind in IH. rewrite IH by (intros q Hq; apply Hl; by right).
    unfold ret, mtime_at. rewrite Hx. simpl.
    rewrite <- app_assoc. reflexivity.
Qed.

(** The detector, run: no file is touched, and the verdict is that of the
    reference definition on the time stamps of the listed entries. *)
Lemma check_if_transpilation_needed_run f t :
  let src_files := glob_list f ["src"] "*.cn" ++ glob_list f ["src"] "*.cnm" in
  let generated_files := glob_list f ["src"] "*.cpp" ++ glob_list f ["src"] "*.h" in
  exists evs,
    check_if_transpilation_needed (World f t) =
      (Ok (needsRegeneration (map (mtime_at f) src_files)
             (map (mtime_at f) generated_files)),
       World f (t ++ evs)).
Proof.
  intros src_files generated_files.
  assert (Hsome : forall p, p ∈ src_files ++ generated_files -> is_Some (f !! p)).
  { intros p Hp. unfold src_files, generated_files in Hp.
    repeat (apply elem_of_app in Hp as [Hp|Hp]);
      apply elem_of_glob_list in Hp as (_ & H & _); exact H. }
  unfold check_if_transpilation_needed.
  unfold bind, glob, emit, get_fs, ret at 1 2 3 4, log. simpl.
  fold src_files. fold generated_files.
  clearbody src_files generated_files.
  destruct src_files as [|s S].
  { simpl. eexists. unfold ret. rewrite <- !app_assoc. reflexivity. }
  rewrite bool_decide_eq_false_2 by discriminate.
  destruct generated_files as [|g G].
  { simpl. eexists. unfold ret. rewrite <- !app_assoc. reflexivity. }
  rewrite bool_decide_eq_false_2 by discriminate.
  rewrite map_M_stat_mtime
    by (intros p Hp; apply Hsome, elem_of_app; by left).
  cbn [map py_max]. unfold ret at 1.
  rewrite map_M_stat_mtime
    by (intros p Hp; apply Hsome, elem_of_app; by right).
  cbn [map py_min]. unfold ret.
  rewrite py_max_foldr, py_min_foldr. cbn [needsRegeneration].
  eexists. rewrite <- !app_assoc. reflexivity.
Qed.

(** The time stamps the script collects with its two listings are those of
    the artifact set with the two extensions. *)
Lemma mtimes_glob_artifact_set f dir ext1 ext2 t :
  wildcard_free ext1 = true -> wildcard_free ext2 = true ->
  t ∈ map (mtime_at f)
        (glob_list f [dir] (String "*" ext1) ++
         glob_list f [dir] (String "*" ext2)) <->
  t ∈ mtimes (artifact_set dir [ext1; ext2] f).
Proof.
  intros W1 W2. unfold mtimes.
  rewrite !list_elem_of_In, !in_map_iff. split.
  - intros (p & <- & Hp). apply list_elem_of_In in Hp.
    assert (exists x n, is_dir f [dir] = true /\ f !! p = Some x /\
              p = [dir; n] /\
              existsb (fun e => has_extension e n) [ext1; ext2] = true)
      as (x & n & Hd & Hx & -> & Hn).
    { apply elem_of_app in Hp as [Hp|Hp];
        apply elem_of_glob_list in Hp as (Hd & [x Hx] & n & -> & Hn);
        rewrite fnmatch_star_extension in Hn by assumption;
        exists x, n; simpl; rewrite Hn, ?orb_true_r; auto. }
    exists ([dir; n], x). split.
    + unfold mtime_at. rewrite Hx. reflexivity.
    + apply list_elem_of_In, elem_of_artifact_set. eauto.
  - intros ([p x] & <- & Hp).
    apply list_elem_of_In, elem_of_artifact_set in Hp
      as (Hd & Hx & n & -> & Hn).
    exists [dir; n]. split.
    + unfold mtime_at. rewrite Hx. reflexivity.
    + apply list_elem_of_In, elem_of_app. simpl in Hn.
      rewrite orb_false_r in Hn. apply orb_prop in Hn as [Hn|Hn];
        [left|right]; apply elem_of_glob_list;
        (split; [exact Hd|split; [eauto|]]);
        exists n; (split; [reflexivity|]);
        rewrite fnmatch_star_extension by assumption; exact Hn.
Qed.

(** ** The staging step *)

Lemma dest_last f n : last (dest f n) = Some n.
Proof. unfold dest. destruct (is_dir f ["src"; n]); reflexivity. Qed.

Lemma dest_inj f n k : dest f n = dest f k -> n = k.
Proof.
  intros H. apply (f_equal last) in H. rewrite !dest_last in H. congruence.
Qed.

Lemma dest_head f n : exists q, dest f n = "src" :: q.
Proof. unfold dest. destruct (is_dir f ["src"; n]); eauto. Qed.

Lemma dest_ne_generated f n p : dest f n <> "generated" :: p.
Proof. destruct (dest_head f n) as [q ->]. discriminate. Qed.

Lemma removelast_dest f n :
  removelast (dest f n) = if is_dir f ["src"; n] then ["src"; n] else ["src"].
Proof. unfold dest. destruct (is_dir f ["src"; n]); reflexivity. Qed.

Lemma removelast_dest_ne_generated f n p :
  removelast (dest f n) <> "generated" :: p.
Proof.
  rewrite removelast_dest. destruct (is_dir f ["src"; n]); discriminate.
Qed.

(** The directory of a destination is not a destination. *)
Lemma removelast_dest_ne_dest f n k : removelast (dest f n) <> dest f k.
Proof.
  rewrite removelast_dest. unfold dest.
  destruct (is_dir f ["src"; n]) eqn:Hn, (is_dir f ["src"; k]) eqn:Hk;
    try discriminate.
  intros E. simplify_eq. congruence.
Qed.

(** No staged name is the name of a transpiler input. *)
Lemma staged_name_not_source n :
  existsb (fun e => has_extension e n) [".cpp"; ".h"] = true ->
  existsb (fun e => has_extension e n) [".cn"; ".cnm"] = false.
Proof.
  simpl. rewrite !orb_false_r. intros H.
  apply not_true_is_false. intros H'.
  apply orb_prop in H as [H|H]; apply orb_prop in H' as [H'|H'];
    destruct (has_extension_comparable _ _ _ H H'); discriminate.
Qed.

(** ** The file system after one copy *)

Lemma lookup_with_copy_dest now f0 f n x :
  with_copy now f0 f n x !! dest f0 n = Some x.
Proof. unfold with_copy. apply lookup_insert_eq. Qed.

Lemma lookup_with_copy_ne now f0 f n x q :
  q <> dest f0 n -> q <> removelast (dest f0 n) ->
  with_copy now f0 f n x !! q = f !! q.
Proof.
  intros H1 H2. unfold with_copy. rewrite lookup_insert_ne by congruence.
  destruct (exists_path f (dest f0 n)); [reflexivity|].
  by rewrite lookup_insert_ne by congruence.
Qed.

Lemma lookup_with_copy_dest_ne now f0 f n x k :
  k <> n -> with_copy now f0 f n x !! dest f0 k = f !! dest f0 k.
Proof.
  intros H. apply lookup_with_copy_ne.
  - intros E. by apply dest_inj in E.
  - intros E. symmetry in E. by apply removelast_dest_ne_dest in E.
Qed.

Lemma lookup_with_copy_parent now f0 f n x :
  with_copy now f0 f n x !! removelast (dest f0 n) =
    if exists_path f (dest f0 n) then f !! removelast (dest f0 n)
    else Some (Dir now).
Proof.
  unfold with_copy.
  rewrite lookup_insert_ne by (apply not_eq_sym, removelast_dest_ne_dest).
  destruct (exists_path f (dest f0 n)); [reflexivity|].
  apply lookup_insert_eq.
Qed.

(** ** Staging as a relation *)

Lemma staged_from_refl f : staged_from f f.
Proof. intros q. by left. Qed.

Lemma staged_from_is_dir f0 f q :
  staged_from f0 f -> is_dir f q = is_dir f0 q.
Proof.
  intros H.
  destruct (H q) as [E|[(n & data & t & _ & _ & E & Hd)
                       |(n & data & t & t0 & t1 & _ & _ & _ & E0 & E)]].
  - unfold is_dir. rewrite E. reflexivity.
  - rewrite Hd. unfold is_dir. rewrite E. reflexivity.
  - unfold is_dir. rewrite E0, E. reflexivity.
Qed.

Lemma staged_from_generated f0 f p :
  staged_from f0 f -> f !! ("generated" :: p) = f0 !! ("generated" :: p).
Proof.
  intros H.
  destruct (H ("generated" :: p))
    as [E|[(n & data & t & _ & E & _)|(n & data & t & t0 & t1 & _ & E & _)]].
  - exact E.
  - symmetry in E. by apply dest_ne_generated in E.
  - symmetry in E. by apply removelast_dest_ne_generated in E.
Qed.

(** A name that is not that of a staged file: [src/n] is left as it
    was. *)
Lemma staged_from_unstaged f0 f n :
  staged_from f0 f ->
  (forall z, (["generated"; n], z) ∉ transpiler_output f0) ->
  f !! ["src"; n] = f0 !! ["src"; n].
Proof.
  intros Hs Hno.
  destruct (Hs ["src"; n])
    as [E|[(k & data & t & Hx & Hq & _)
          |(k & data & t & t0 & t1 & Hx & Hq & _)]]; [exact E| |].
  - apply (f_equal last) in Hq. rewrite dest_last in Hq.
    change (Some n = Some k) in Hq. simplify_eq. by apply Hno in Hx.
  - rewrite removelast_dest in Hq.
    destruct (is_dir f0 ["src"; k]); simplify_eq. by apply Hno in Hx.
Qed.

Lemma staged_from_source_name f0 f n :
  staged_from f0 f ->
  existsb (fun e => has_extension e n) [".cn"; ".cnm"] = true ->
  f !! ["src"; n] = f0 !! ["src"; n].
Proof.
  intros Hs Hn. apply staged_from_unstaged; [exact Hs|].
  intros z Hz. apply elem_of_artifact_set in Hz as (_ & _ & k & Ek & Hk).
  simplify_eq. apply staged_name_not_source in Hk. congruence.
Qed.

Lemma staged_from_dest f0 f n : staged_from f0 f -> dest f n = dest f0 n.
Proof. intros H. unfold dest. by rewrite (staged_from_is_dir f0 f). Qed.

Lemma staged_from_glob_list f0 f pattern p :
  staged_from f0 f ->
  p ∈ glob_list f ["generated"] pattern <->
  p ∈ glob_list f0 ["generated"] pattern.
Proof.
  intros H. rewrite !elem_of_glob_list, (staged_from_is_dir f0 f) by assumption.
  split; intros (Hd & Hs & n & -> & Hn); (split; [exact Hd|split; [|eauto]]).
  - simpl in *. by rewrite <- (staged_from_generated f0 f).
  - simpl in *. by rewrite (staged_from_generated f0 f).
Qed.

Lemma staged_from_copyable f0 f n :
  staged_from f0 f -> copyable f n = copyable f0 n.
Proof.
  intros H. unfold copyable.
  rewrite (staged_from_generated f0 f), (staged_from_dest f0 f) by assumption.
  by rewrite !(staged_from_is_dir f0 f).
Qed.

Lemma copyable_File f n x :
  copyable f n = Some x ->
  exists data t, x = File data t /\ f !! ["generated"; n] = Some (File data t) /\
    is_dir f (removelast (dest f n)) = true /\ is_dir f (dest f n) = false.
Proof.
  unfold copyable. destruct (f !! ["generated"; n]) as [[data t|t]|];
    try discriminate.
  destruct (is_dir f (removelast (dest f n))); [|discriminate].
  destruct (is_dir f (dest f n)); [discriminate|].
  intros H. inversion H; subst. eauto 6.
Qed.

(** One copy of the loop, from a state reached by staging: it is made
    exactly when [copyable] says so, and is otherwise an exception that
    leaves the world as it is. *)
Lemma shutil_copy2_staged f0 f t n :
  staged_from f0 f ->
  match copyable f0 n with
  | Some x =>
      shutil_copy2 m ["generated"; n] (["src"] ++ [path_name ["generated"; n]])
        (World f t) =
      (Ok tt, World (with_copy (clock m t) f0 f n x)
                (t ++ [EvCopy ["generated"; n] (dest f0 n)]))
  | None =>
      exists e,
        shutil_copy2 m ["generated"; n] (["src"] ++ [path_name ["generated"; n]])
          (World f t) = (Raise e, World f t)
  end.
Proof.
  intros H. unfold with_copy.
  rewrite <- (staged_from_copyable f0 f n H), <- (staged_from_dest f0 f n H).
  unfold copyable, shutil_copy2, shutil_copyfile_copystat, bind, get_fs.
  simpl.
  change (path_name ["generated"; n]) with n.
  fold (dest f n).
  rewrite bool_decide_eq_false_2
    by (intros E; symmetry in E; by apply dest_ne_generated in E).
  simpl.
  destruct (f !! ["generated"; n]) as [[data t0|t0]|];
    [|unfold raise; eauto..].
  destruct (is_dir f (dest f n)); simpl;
    [rewrite andb_false_r; unfold raise; eauto|].
  destruct (is_dir f (removelast (dest f n))); simpl;
    [|unfold raise; eauto].
  reflexivity.
Qed.

Lemma glob_list_transpiler_output f0 pattern p :
  staging_pattern pattern -> p ∈ glob_list f0 ["generated"] pattern ->
  exists n x, p = ["generated"; n] /\ (p, x) ∈ transpiler_output f0.
Proof.
  intros Hpat Hp.
  apply elem_of_glob_list in Hp as (Hd & [x Hx] & n & -> & Hn).
  exists n, x. split; [reflexivity|].
  apply elem_of_artifact_set. split; [exact Hd|]. split; [exact Hx|].
  exists n. split; [reflexivity|].
  destruct Hpat as [-> | ->];
    rewrite fnmatch_star_extension in Hn by reflexivity;
    simpl; rewrite Hn, ?orb_true_r; reflexivity.
Qed.

Lemma transpiler_output_glob_list f0 p x :
  (p, x) ∈ transpiler_output f0 ->
  exists n, p = ["generated"; n] /\
    (p ∈ glob_list f0 ["generated"] "*.cpp" \/
     p ∈ glob_list f0 ["generated"] "*.h").
Proof.
  intros Hp. apply elem_of_artifact_set in Hp as (Hd & Hx & n & -> & Hn).
  exists n. split; [reflexivity|].
  simpl in Hn. rewrite orb_false_r in Hn.
  apply orb_prop in Hn as [Hn|Hn]; [left|right];
    apply elem_of_glob_list; (split; [exact Hd|split; [eauto|]]);
    exists n; (split; [reflexivity|]);
    rewrite fnmatch_star_extension by reflexivity; exact Hn.
Qed.

Lemma staged_from_with_copy now f0 f n x y :
  staged_from f0 f -> copyable f0 n = Some x ->
  (["generated"; n], y) ∈ transpiler_output f0 ->
  staged_from f0 (with_copy now f0 f n x).
Proof.
  intros H Hc Hy q.
  apply copyable_File in Hc as (data & t & -> & Hx & Hp & Hd).
  assert (Hy' : (["generated"; n], File data t) ∈ transpiler_output f0).
  { apply elem_of_artifact_set in Hy as (Hg & _ & Hn).
    apply elem_of_artifact_set. auto. }
  destruct (decide (q = dest f0 n)) as [->|Hne].
  { right; left. exists n, data, t. rewrite lookup_with_copy_dest. auto. }
  destruct (decide (q = removelast (dest f0 n))) as [->|Hne'].
  2:{ rewrite lookup_with_copy_ne by assumption. apply H. }
  rewrite lookup_with_copy_parent.
  destruct (exists_path f (dest f0 n)) eqn:Hex; [apply H|].
  right; right. unfold is_dir in Hp.
  destruct (f0 !! removelast (dest f0 n)) as [[|t0]|] eqn:Hq; try discriminate.
  exists n, data, t, t0, now. split; [exact Hy'|]. split; [reflexivity|].
  split; [|auto].
  unfold exists_path in Hex.
  destruct (f !! dest f0 n) eqn:Hfd; [discriminate|].
  destruct (H (dest f0 n))
    as [E|[(k & ? & ? & _ & _ & E & _)|(k & ? & ? & ? & ? & _ & _ & _ & _ & E)]];
    congruence.
Qed.

Lemma copied_with_copy now f0 f ns n x :
  copied f0 f ns -> copyable f0 n = Some x ->
  copied f0 (with_copy now f0 f n x) (n :: ns).
Proof.
  intros H Hc k y Hk Hy.
  destruct (decide (k = n)) as [->|Hne].
  - rewrite lookup_with_copy_dest. congruence.
  - rewrite lookup_with_copy_dest_ne by assumption.
    apply elem_of_cons in Hk as [->|Hk]; [congruence|]. by apply H.
Qed.

Lemma copied_weaken f0 f ns ms :
  copied f0 f ns -> (forall n, n ∈ ms -> n ∈ ns) -> copied f0 f ms.
Proof. intros H Hsub n x Hn. apply H, Hsub, Hn. Qed.

(** The inner loop, from a state reached by staging: it keeps the state
    so, keeps the copies made, and when it comes to its end every file of
    the list has been copied. *)
Lemma for_each_copy_one f0 pattern files :
  staging_pattern pattern ->
  (forall p, p ∈ files -> p ∈ glob_list f0 ["generated"] pattern) ->
  forall f t ns r w',
    staged_from f0 f -> copied f0 f ns ->
    for_each files (copy_one m) (World f t) = (r, w') ->
    staged_from f0 (fs w') /\ copied f0 (fs w') ns /\
    (r = Ok tt <-> forall p, p ∈ files -> is_Some (copyable f0 (path_name p))) /\
    (r = Ok tt ->
     copied f0 (fs w') (path_name <$> files) /\
     exists evs, trace w' = t ++ evs /\ copies evs = copies_of f0 files).
Proof.
  intros Hpat. induction files as [|p files IH]; intros Hfiles f t ns r w' Hs Hc E.
  - simpl in E. inversion E; subst. simpl.
    split; [exact Hs|]. split; [exact Hc|]. split.
    + split; [intros _ p Hp; inversion Hp | reflexivity].
    + intros _. split; [intros n x Hn; inversion Hn|].
      exists []. rewrite app_nil_r. auto.
  - destruct (glob_list_transpiler_output f0 pattern p Hpat
                (Hfiles p ltac:(left))) as (n & y & -> & Hy).
    simpl in E. unfold bind at 1 in E. unfold copy_one at 1 in E.
    unfold bind at 1 in E.
    pose proof (shutil_copy2_staged f0 f t n Hs) as Hstep.
    change (path_name ["generated"; n]) with n in *.
    destruct (copyable f0 n) as [x|] eqn:Ecopy.
    + rewrite Hstep in E. unfold print, emit, log in E. simpl in E.
      assert (Hfiles' : forall q, q ∈ files ->
                q ∈ glob_list f0 ["generated"] pattern)
        by (intros q Hq; apply Hfiles; by right).
      apply (IH Hfiles' _ _ (n :: ns)) in E as (Hs' & Hc' & Hok & Hdone).
      * split; [exact Hs'|]. split.
        { eapply copied_weaken; [exact Hc'|]. intros k Hk. by right. }
        split.
        { rewrite Hok. split.
          - intros H q Hq. apply elem_of_cons in Hq as [->|Hq]; [|by apply H].
            change (path_name ["generated"; n]) with n. rewrite Ecopy. eauto.
          - intros H q Hq. apply H. by right. }
        intros Hr. destruct (Hdone Hr) as (Hcp & evs & T & Hev).
        split.
        { intros k z Hk Hz. rewrite fmap_cons in Hk.
          apply elem_of_cons in Hk as [->|Hk]; [|by apply Hcp].
          apply Hc'; [by left|exact Hz]. }
        exists ([EvCopy ["generated"; n] (dest f0 n);
                 EvStdout ("   Copied " ++ n ++ " to src/")] ++ evs).
        rewrite T, <- !app_assoc. split; [reflexivity|].
        rewrite copies_app, Hev. reflexivity.
      * eapply staged_from_with_copy; eassumption.
      * by apply copied_with_copy.
    + destruct Hstep as [e Hstep]. rewrite Hstep in E. inversion E; subst.
      simpl. split; [exact Hs|]. split; [exact Hc|]. split.
      * split; [discriminate|]. intros H.
        destruct (H ["generated"; n] ltac:(left)) as [x Hx].
        change (path_name ["generated"; n]) with n in Hx. congruence.
      * discriminate.
Qed.

Lemma NoDup_artifact_set_paths dir exts f : NoDup (artifact_set dir exts f).*1.
Proof.
  apply NoDup_fmap_fst.
  - intros p y1 y2 H1 H2.
    apply elem_of_artifact_set in H1 as (_ & H1 & _).
    apply elem_of_artifact_set in H2 as (_ & H2 & _). congruence.
  - unfold artifact_set. destruct (is_dir f [dir]); [|constructor].
    apply NoDup_filter, NoDup_map_to_list.
Qed.

(** No name has both the extension [.cpp] and the extension [.h]. *)
Lemma cpp_h_disjoint f p :
  p ∈ glob_list f ["generated"] "*.cpp" -> p ∉ glob_list f ["generated"] "*.h".
Proof.
  intros H1 H2.
  apply elem_of_glob_list in H1 as (_ & _ & n & -> & H1).
  apply elem_of_glob_list in H2 as (_ & _ & k & E & H2).
  simplify_eq.
  rewrite fnmatch_star_extension in H1, H2 by reflexivity.
  destruct (has_extension_comparable _ _ _ H1 H2); discriminate.
Qed.

(** The two listings of the staging step, together, are the transpiler
    output. *)
Lemma glob_lists_transpiler_output f :
  glob_list f ["generated"] "*.cpp" ++ glob_list f ["generated"] "*.h"
  ≡ₚ (transpiler_output f).*1.
Proof.
  apply NoDup_Permutation.
  - apply NoDup_app. split; [apply NoDup_glob_list|].
    split; [apply cpp_h_disjoint | apply NoDup_glob_list].
  - apply NoDup_artifact_set_paths.
  - intros p. rewrite elem_of_app, list_elem_of_fmap. split.
    + intros [H|H];
        (eapply glob_list_transpiler_output in H as (n & x & -> & H);
         [|(by left) || (by right)]);
        exists (["generated"; n], x); auto.
    + intros ([q x] & -> & H).
      apply transpiler_output_glob_list in H as (n & _ & H). exact H.
Qed.

Lemma copy_pattern_run pattern f t :
  copy_pattern m ["generated"] ["src"] pattern (World f t) =
  for_each (glob_list f ["generated"] pattern) (copy_one m)
    (World f (t ++ [EvGlob ["generated"] pattern])).
Proof. reflexivity. Qed.

(** One pattern of the staging loop, from a state reached by staging. *)
Lemma copy_pattern_staged f0 pattern f t ns r w' :
  staging_pattern pattern ->
  staged_from f0 f -> copied f0 f ns ->
  copy_pattern m ["generated"] ["src"] pattern (World f t) = (r, w') ->
  let files := glob_list f0 ["generated"] pattern in
  staged_from f0 (fs w') /\ copied f0 (fs w') ns /\
  (r = Ok tt <-> forall p, p ∈ files -> is_Some (copyable f0 (path_name p))) /\
  (r = Ok tt ->
   copied f0 (fs w') (path_name <$> files) /\
   exists evs, trace w' = t ++ evs /\ copies evs ≡ₚ copies_of f0 files).
Proof.
  intros Hpat Hs Hc E files. rewrite copy_pattern_run in E.
  assert (Hperm : glob_list f ["generated"] pattern ≡ₚ files).
  { apply NoDup_Permutation; try apply NoDup_glob_list.
    intros p. by apply staged_from_glob_list. }
  eapply (for_each_copy_one f0 pattern) in E as (Hs' & Hc' & Hok & Hdone);
    [|exact Hpat|intros p Hp; by rewrite <- (staged_from_glob_list f0 f)
     |exact Hs|exact Hc].
  split; [exact Hs'|]. split; [exact Hc'|]. split.
  - rewrite Hok. split; intros H p Hp; apply H.
    + by rewrite Hperm.
    + by rewrite <- Hperm.
  - intros Hr. destruct (Hdone Hr) as (Hcp & evs & T & Hev). split.
    + eapply copied_weaken; [exact Hcp|]. intros n Hn. by rewrite Hperm.
    + exists ([EvGlob ["generated"] pattern] ++ evs).
      rewrite T, <- app_assoc. split; [reflexivity|].
      rewrite copies_app, Hev. simpl. unfold copies_of. by rewrite Hperm.
Qed.

Lemma stage_generated_absent f0 t :
  exists_path f0 ["generated"] = false ->
  stage_generated m (World f0 t) = (Ok tt, World f0 t).
Proof.
  intros H. unfold stage_generated, path_exists, bind, get_fs, ret. simpl.
  rewrite H. reflexivity.
Qed.

Lemma stage_generated_present f0 t :
  exists_path f0 ["generated"] = true ->
  stage_generated m (World f0 t) =
  (copy_pattern m ["generated"] ["src"] "*.cpp" ;;
   copy_pattern m ["generated"] ["src"] "*.h" ;;
   ret tt)%py
    (World f0 (t ++ [EvStdout "📋 Copying generated C++ files to src directory..."])).
Proof.
  intros H. unfold stage_generated, path_exists. unfold bind at 1 2.
  unfold get_fs, ret at 1. simpl. rewrite H. reflexivity.
Qed.

Lemma transpiler_output_absent f0 :
  is_dir f0 ["generated"] = false -> transpiler_output f0 = [].
Proof.
  intros H. unfold transpiler_output, artifact_set. rewrite H. reflexivity.
Qed.

Lemma copyable_transpiler_output f0 n x y :
  (["generated"; n], x) ∈ transpiler_output f0 ->
  copyable f0 n = Some y -> y = x.
Proof.
  intros Hx Hy. apply elem_of_artifact_set in Hx as (_ & Hx & _).
  apply copyable_File in Hy as (data & t & -> & Hy & _). congruence.
Qed.

(** The staging step: whatever its outcome, the file system it leaves
    differs from the one it found by copies of staged files only; it comes
    to its end exactly when every file of the transpiler output can be
    copied, and then every one of them has been copied, once. *)
Lemma stage_generated_staged f0 t r w' :
  stage_generated m (World f0 t) = (r, w') ->
  staged_from f0 (fs w') /\
  (r = Ok tt <->
   forall n x, (["generated"; n], x) ∈ transpiler_output f0 ->
               copyable f0 n = Some x) /\
  (r = Ok tt ->
   (forall n x, (["generated"; n], x) ∈ transpiler_output f0 ->
                fs w' !! dest f0 n = Some x) /\
   exists evs, trace w' = t ++ evs /\
     copies evs ≡ₚ copies_of f0 (transpiler_output f0).*1).
Proof.
  intros E.
  destruct (exists_path f0 ["generated"]) eqn:Hex.
  2:{ rewrite stage_generated_absent in E by assumption.
      inversion E; subst. simpl.
      assert (Hout : transpiler_output f0 = []).
      { apply transpiler_output_absent. unfold is_dir, exists_path in *.
        destruct (f0 !! ["generated"]); [discriminate|reflexivity]. }
      rewrite Hout. split; [apply staged_from_refl|]. split.
      - split; [intros _ n x H; inversion H | reflexivity].
      - intros _. split; [intros n x H; inversion H|].
        exists []. rewrite app_nil_r. split; reflexivity. }
  rewrite stage_generated_present in E by assumption.
  unfold bind at 1 in E.
  destruct (copy_pattern m ["generated"] ["src"] "*.cpp" _) as [r1 [f1 t1]] eqn:E1.
  apply (copy_pattern_staged f0 _ _ _ []) in E1
    as (Hs1 & _ & Hok1 & Hdone1);
    [|by left|apply staged_from_refl|intros n x Hn; inversion Hn].
  simpl in Hs1, Hdone1.
  assert (Hall : (forall n x, (["generated"; n], x) ∈ transpiler_output f0 ->
                              copyable f0 n = Some x) <->
                 (forall p, p ∈ glob_list f0 ["generated"] "*.cpp" ->
                            is_Some (copyable f0 (path_name p))) /\
                 (forall p, p ∈ glob_list f0 ["generated"] "*.h" ->
                            is_Some (copyable f0 (path_name p)))).
  { split.
    - intros H. split; intros p Hp;
        (eapply glob_list_transpiler_output in Hp as (n & x & -> & Hp);
         [|(by left) || (by right)]);
        change (path_name ["generated"; n]) with n;
        rewrite (H n x Hp); eauto.
    - intros [H1 H2] n x Hx.
      destruct (transpiler_output_glob_list f0 _ _ Hx) as (k & Ek & [Hp|Hp]);
        [apply H1 in Hp as [y Hy] | apply H2 in Hp as [y Hy]];
        change (path_name ["generated"; n]) with n in Hy;
        rewrite Hy; f_equal; eapply copyable_transpiler_output; eassumption. }
  destruct r1 as [[]|e1].
  2:{ inversion E; subst. simpl. split; [exact Hs1|]. split; [|discriminate].
      split; [discriminate|]. intros H. apply Hall in H as [H _].
      apply Hok1 in H. discriminate. }
  unfold bind at 1 in E.
  destruct (copy_pattern m ["generated"] ["src"] "*.h" _) as [r2 [f2 t2]] eqn:E2.
  destruct (Hdone1 eq_refl) as (Hcp1 & evs1 & T1 & Hev1).
  apply (copy_pattern_staged f0 _ _ _
           (path_name <$> glob_list f0 ["generated"] "*.cpp")) in E2
    as (Hs2 & Hc2 & Hok2 & Hdone2); [|by right|exact Hs1|exact Hcp1].
  simpl in Hs2, Hc2, Hdone2.
  destruct r2 as [[]|e2].
  2:{ inversion E; subst. simpl. split; [exact Hs2|]. split; [|discriminate].
      split; [discriminate|]. intros H. apply Hall in H as [_ H].
      apply Hok2 in H. discriminate. }
  inversion E; subst. simpl. split; [exact Hs2|].
  pose proof (proj1 Hok1 eq_refl) as A1. pose proof (proj1 Hok2 eq_refl) as A2.
  assert (Hcopy : forall n x, (["generated"; n], x) ∈ transpiler_output f0 ->
                              copyable f0 n = Some x)
    by (apply Hall; auto).
  split; [split; auto|]. intros _.
  destruct (Hdone2 eq_refl) as (Hcp2 & evs2 & T2 & Hev2). split.
  - intros n x Hx.
    destruct (transpiler_output_glob_list f0 _ _ Hx) as (k & Ek & [Hp|Hp]).
    + apply (Hc2 n x); [|by apply Hcopy].
      apply list_elem_of_fmap. by exists ["generated"; n].
    + apply (Hcp2 n x); [|by apply Hcopy].
      apply list_elem_of_fmap. by exists ["generated"; n].
  - exists ([EvStdout "📋 Copying generated C++ files to src directory..."] ++
            evs1 ++ evs2).
    simpl in T2. rewrite T2, <- !app_assoc. split; [reflexivity|].
    rewrite !copies_app, Hev1, Hev2. simpl.
    unfold copies_of. rewrite <- fmap_app.
    by rewrite glob_lists_transpiler_output.
Qed.





Lemma new_events_trace w w' evs :
  trace w' = trace w ++ evs -> new_events w w' = evs.
Proof. intros H. unfold new_events. rewrite H. apply drop_app_length. Qed.

(** When both stages succeed the script reaches the staging step, and
    whatever happens there the process exits with status 0. *)
Lemma script_both_ok_exit w out1 err1 f1 out2 err2 f2 :
  child_result m tsc_cmd (fs w) = (Ok (0, out1, err1), f1) ->
  child_result m node_cmd f1 = (Ok (0, out2, err2), f2) ->
  (run m w).1 = 0.
Proof.
  intros H1 H2. rewrite run_status, (script_both_ok m w _ _ _ _ _ _ H1 H2).
  destruct (stage_generated _ _) as [[[]|e] ws] eqn:E; simpl; [reflexivity|].
  apply stage_generated_raises, is_OSError_Exception in E. rewrite E.
  reflexivity.
Qed.


(** ** Staging up to time stamps *)









(** The reference verdict, case by case. *)
Lemma needsRegeneration_no_source G : needsRegeneration [] G = false.
Proof. reflexivity. Qed.

Lemma needsRegeneration_first_build S :
  S <> [] -> needsRegeneration S [] = true.
Proof. destruct S; [congruence | reflexivity]. Qed.

Lemma needsRegeneration_newest_oldest S G newest oldest :
  newest ∈ S -> (forall s, s ∈ S -> s <= newest) ->
  oldest ∈ G -> (forall g, g ∈ G -> oldest <= g) ->
  needsRegeneration S G = (newest >? oldest).
Proof.
  intros HS1 HS2 HG1 HG2.
  destruct S as [|s S]; [inversion HS1|].
  destruct G as [|g G]; [inversion HG1|].
  simpl.
  destruct (foldr_max_spec s S) as [M1 M2].
  destruct (foldr_min_spec g G) as [N1 N2].
  specialize (HS2 _ M1). specialize (M2 _ HS1).
  specialize (HG2 _ N1). specialize (N2 _ HG1).
  replace (foldr Z.max s S) with newest by lia.
  replace (foldr Z.min g G) with oldest by lia.
  reflexivity.
Qed.

(** * Lemmas for the further properties *)

(** ** The verdict as a comparison of pairs *)

Lemma needsRegeneration_true_iff (S G : list Z) :
  needsRegeneration S G = true <->
  S <> [] /\ (G = [] \/ exists s g, s ∈ S /\ g ∈ G /\ s > g).
Proof.
  destruct S as [|s S]; simpl.
  { split; [discriminate|]. intros [H _]. congruence. }
  destruct G as [|g G]; simpl.
  { split; [auto|reflexivity]. }
  destruct (foldr_max_spec s S) as [M1 M2].
  destruct (foldr_min_spec g G) as [N1 N2].
  rewrite Z.gtb_gt. split.
  - intros H. split; [discriminate|]. right. eauto.
  - intros [_ [H|(a & b & Ha & Hb & Hab)]]; [discriminate|].
    specialize (M2 _ Ha). specialize (N2 _ Hb). lia.
Qed.

Lemma check_if_transpilation_needed_verdict w :
  (check_if_transpilation_needed w).1 =
    Ok (needsRegeneration (mtimes (source_artifacts (fs w)))
          (mtimes (generated_artifacts (fs w)))).
Proof.
  destruct w as [f t]. simpl.
  destruct (check_if_transpilation_needed_run f t) as (evs & E).
  rewrite E. simpl. f_equal.
  apply needsRegeneration_ext; intros x;
    apply (mtimes_glob_artifact_set f "src"); reflexivity.
Qed.

Lemma elem_of_mtimes a t :
  t ∈ mtimes a <-> exists p x, (p, x) ∈ a /\ t = node_mtime x.
Proof.
  unfold mtimes. rewrite list_elem_of_In, in_map_iff. split.
  - intros ([p x] & <- & H). apply list_elem_of_In in H. eauto.
  - intros (p & x & H & ->). exists (p, x).
    split; [reflexivity|by apply list_elem_of_In].
Qed.

Lemma mtimes_nil a : mtimes a = [] <-> a = [].
Proof. unfold mtimes. destruct a; simpl; split; congruence. Qed.

(** ** The last line of a run *)




(** ** Copies are not undone *)

Lemma in_place_nil f0 f : in_place f0 f [].
Proof. intros s d H. inversion H. Qed.

Lemma in_place_with_copy now f0 f cs n x y :
  in_place f0 f cs -> copyable f0 n = Some x ->
  (["generated"; n], y) ∈ transpiler_output f0 ->
  in_place f0 (with_copy now f0 f n x) (cs ++ [(["generated"; n], dest f0 n)]).
Proof.
  intros H Hc Hy s d Hsd.
  pose proof (copyable_transpiler_output _ _ _ _ Hy Hc) as ->.
  destruct (copyable_File _ _ _ Hc) as (data & t & -> & _).
  apply elem_of_app in Hsd as [Hsd|Hsd].
  - destruct (H s d Hsd) as (k & data' & t' & -> & Hk & -> & Hd).
    exists k, data', t'. split; [reflexivity|]. split; [exact Hk|].
    split; [reflexivity|].
    destruct (decide (k = n)) as [->|Hne].
    + rewrite lookup_with_copy_dest.
      apply elem_of_artifact_set in Hy as (_ & Hy & _).
      apply elem_of_artifact_set in Hk as (_ & Hk & _). congruence.
    + by rewrite lookup_with_copy_dest_ne.
  - apply list_elem_of_singleton in Hsd. inversion Hsd; subst.
    exists n, data, t. rewrite lookup_with_copy_dest. auto.
Qed.

(** The inner loop, whatever its outcome: the copies made before it and
    the copies it makes are in place when it stops. *)
Lemma for_each_copy_one_in_place f0 pattern files :
  staging_pattern pattern ->
  (forall p, p ∈ files -> p ∈ glob_list f0 ["generated"] pattern) ->
  forall f t cs r w',
    staged_from f0 f -> in_place f0 f cs ->
    for_each files (copy_one m) (World f t) = (r, w') ->
    exists evs, trace w' = t ++ evs /\
      staged_from f0 (fs w') /\ in_place f0 (fs w') (cs ++ copies evs).
Proof.
  intros Hpat. induction files as [|p files IH]; intros Hfiles f t cs r w' Hs Hc E.
  - simpl in E. inversion E; subst. exists []. simpl.
    rewrite !app_nil_r. auto.
  - destruct (glob_list_transpiler_output f0 pattern p Hpat
                (Hfiles p ltac:(left))) as (n & y & -> & Hy).
    simpl in E. unfold bind at 1 in E. unfold copy_one at 1 in E.
    unfold bind at 1 in E.
    pose proof (shutil_copy2_staged f0 f t n Hs) as Hstep.
    change (path_name ["generated"; n]) with n in *.
    destruct (copyable f0 n) as [x|] eqn:Ecopy.
    + rewrite Hstep in E. unfold print, emit, log in E. simpl in E.
      assert (Hfiles' : forall q, q ∈ files ->
                q ∈ glob_list f0 ["generated"] pattern)
        by (intros q Hq; apply Hfiles; by right).
      apply (IH Hfiles' _ _ (cs ++ [(["generated"; n], dest f0 n)])) in E
        as (evs & T & Hs' & Hc').
      * exists ([EvCopy ["generated"; n] (dest f0 n);
                 EvStdout ("   Copied " ++ n ++ " to src/")] ++ evs).
        rewrite T, <- !app_assoc. split; [reflexivity|].
        split; [exact Hs'|].
        rewrite <- app_assoc in Hc'. exact Hc'.
      * eapply staged_from_with_copy; eassumption.
      * eapply in_place_with_copy; eassumption.
    + destruct Hstep as [e Hstep]. rewrite Hstep in E. inversion E; subst.
      exists []. simpl. rewrite !app_nil_r. auto.
Qed.

Lemma copy_pattern_in_place f0 pattern f t cs r w' :
  staging_pattern pattern ->
  staged_from f0 f -> in_place f0 f cs ->
  copy_pattern m ["generated"] ["src"] pattern (World f t) = (r, w') ->
  exists evs, trace w' = t ++ evs /\
    staged_from f0 (fs w') /\ in_place f0 (fs w') (cs ++ copies evs).
Proof.
  intros Hpat Hs Hc E. rewrite copy_pattern_run in E.
  eapply (for_each_copy_one_in_place f0 pattern) in E as (evs & T & Hs' & Hc');
    [|exact Hpat|intros p Hp; by rewrite <- (staged_from_glob_list f0 f)
     |exact Hs|exact Hc].
  exists ([EvGlob ["generated"] pattern] ++ evs).
  rewrite T, <- app_assoc. split; [reflexivity|]. split; [exact Hs'|].
  by rewrite copies_app.
Qed.

(** The staging step, whatever its outcome: every copy it made is in
    place when it stops. *)
Lemma stage_generated_in_place f0 t r w' :
  stage_generated m (World f0 t) = (r, w') ->
  exists evs, trace w' = t ++ evs /\ in_place f0 (fs w') (copies evs).
Proof.
  intros E.
  destruct (exists_path f0 ["generated"]) eqn:Hex.
  2:{ rewrite stage_generated_absent in E by assumption.
      inversion E; subst. exists []. simpl. rewrite app_nil_r.
      split; [reflexivity|apply in_place_nil]. }
  rewrite stage_generated_present in E by assumption.
  unfold bind at 1 in E.
  destruct (copy_pattern m ["generated"] ["src"] "*.cpp" _) as [r1 [f1 t1]] eqn:E1.
  apply (copy_pattern_in_place f0 _ _ _ []) in E1 as (evs1 & T1 & Hs1 & Hc1);
    [|by left|apply staged_from_refl|apply in_place_nil].
  simpl in T1, Hs1, Hc1.
  destruct r1 as [[]|e1].
  2:{ inversion E; subst.
      exists ([EvStdout "📋 Copying generated C++ files to src directory..."]
              ++ evs1).
      simpl. rewrite <- app_assoc. split; [reflexivity|exact Hc1]. }
  unfold bind at 1 in E.
  destruct (copy_pattern m ["generated"] ["src"] "*.h" _) as [r2 [f2 t2]] eqn:E2.
  apply (copy_pattern_in_place f0 _ _ _ (copies evs1)) in E2
    as (evs2 & T2 & Hs2 & Hc2); [|by right|exact Hs1|exact Hc1].
  simpl in T2, Hs2, Hc2.
  exists ([EvStdout "📋 Copying generated C++ files to src directory..."]
          ++ evs1 ++ evs2).
  assert (trace w' = t2 /\ fs w' = f2) as [-> ->]
    by (destruct r2 as [[]|e2]; inversion E; subst; auto).
  subst. rewrite <- !app_assoc. split; [reflexivity|].
  simpl. by rewrite copies_app.
Qed.

(** ** The whole run and the file system *)

Lemma copies_swallowed e : copies (swallowed e) = [].
Proof. reflexivity. Qed.

(** A run in which both stages succeeded, up to and after the staging
    step. *)
Lemma script_both_ok_staging w out1 err1 f1 out2 err2 f2 :
  child_result m tsc_cmd (fs w) = (Ok (0, out1, err1), f1) ->
  child_result m node_cmd f1 = (Ok (0, out2, err2), f2) ->
  exists evs tail,
    trace (script m w).2 =
      trace w ++ (preamble ++ transpiling ++ [EvStdout out2]) ++ evs ++ tail /\
    copies tail = [] /\
    staged_from f2 (fs (script m w).2) /\
    in_place f2 (fs (script m w).2) (copies evs).
Proof.
  intros H1 H2. rewrite (script_both_ok m w _ _ _ _ _ _ H1 H2).
  destruct (stage_generated _ _) as [r ws] eqn:E.
  destruct (stage_generated_in_place _ _ _ _ E) as (evs & T & Hin).
  pose proof (stage_generated_staged _ _ _ _ E) as (Hs & _).
  exists evs.
  destruct r as [[]|e]; simpl.
  - exists [completed]. rewrite T, <- !app_assoc. auto.
  - rewrite (is_OSError_Exception e (stage_generated_raises _ _ _ _ E)). simpl.
    exists (swallowed e). rewrite T, <- !app_assoc. auto.
Qed.

Lemma both_stages_ok_true f :
  both_stages_ok m f = true ->
  exists out1 err1 f1 out2 err2,
    child_result m tsc_cmd f = (Ok (0, out1, err1), f1) /\
    child_result m node_cmd f1 = (Ok (0, out2, err2), tools_fs m f).
Proof.
  unfold both_stages_ok, tools_fs.
  destruct (child_result m tsc_cmd f) as [[[[rc1 out1] err1]|e1] f1];
    [|discriminate].
  destruct (Z.eqb_spec rc1 0) as [->|]; [|discriminate]. simpl.
  destruct (child_result m node_cmd f1) as [[[[rc2 out2] err2]|e2] f2] eqn:H2;
    [|discriminate].
  destruct (Z.eqb_spec rc2 0) as [->|]; [|discriminate].
  intros _. simpl. eauto 8.
Qed.

(** A run in which a stage did not succeed: the script prints, and that
    is all. *)
Lemma script_not_both_ok w :
  both_stages_ok m (fs w) = false ->
  fs (script m w).2 = tools_fs m (fs w) /\
  exists evs, trace (script m w).2 = trace w ++ evs /\ copies evs = [].
Proof.
  unfold both_stages_ok, tools_fs.
  destruct (script_cases m w)
    as [(e & f1 & H1 & E)
       |[(rc & out & err & f1 & H1 & Hrc & E)
        |(out1 & err1 & f1 & H1 &
          [(e & f2 & H2 & E)
          |[(rc & out & err & f2 & H2 & Hrc & E)
           |(out2 & err2 & f2 & H2 & E)]])]];
    rewrite H1; try rewrite H2; rewrite E; clear E.
  - intros _. split; [reflexivity|]. eexists. split; reflexivity.
  - apply Z.eqb_neq in Hrc. rewrite Hrc. intros _.
    split; [reflexivity|]. eexists. split; reflexivity.
  - intros _. split; [reflexivity|]. eexists. split; reflexivity.
  - apply Z.eqb_neq in Hrc. simpl. rewrite Hrc. intros _.
    split; [reflexivity|]. eexists. split; reflexivity.
  - discriminate.
Qed.

(** ** The detector after a staging step *)








(** ** What the detector and the script depend on *)

Lemma artifact_set_agree dir exts f g p x :
  f !! [dir] = g !! [dir] ->
  (forall n, f !! [dir; n] = g !! [dir; n]) ->
  (p, x) ∈ artifact_set dir exts f -> (p, x) ∈ artifact_set dir exts g.
Proof.
  intros Hd Hn. rewrite !elem_of_artifact_set. unfold is_dir. rewrite Hd.
  intros (H1 & H2 & n & -> & H3). rewrite <- Hn. eauto.
Qed.

Lemma mtimes_artifact_set_agree dir exts f g t :
  f !! [dir] = g !! [dir] ->
  (forall n, f !! [dir; n] = g !! [dir; n]) ->
  t ∈ mtimes (artifact_set dir exts f) <-> t ∈ mtimes (artifact_set dir exts g).
Proof.
  intros Hd Hn. rewrite !elem_of_mtimes.
  split; intros (p & x & H & ->); exists p, x; (split; [|reflexivity]).
  - by apply (artifact_set_agree dir exts f g).
  - by apply (artifact_set_agree dir exts g f).
Qed.

End Run.


(** The staging step asks the machine for the time only. *)
Lemma stage_generated_clock (m m' : machine) :
  clock m = clock m' -> stage_generated m = stage_generated m'.
Proof.
  intros H.
  unfold stage_generated, copy_pattern, shutil_copy2, shutil_copyfile_copystat,
    time_now.
  rewrite H. reflexivity.
Qed.
(** * The properties of the specification *)

(** C1: [check_if_transpilation_needed] computes the reference verdict
    [needsRegeneration] on the time stamps [S] of the source artifacts (the
    [.cn] and [.cnm] entries of [src/]) and [G] of the generated artifacts
    (its [.cpp] and [.h] entries), raises nothing and touches no file; and
    that verdict is false when [S] is empty, true when [S] is not and [G]
    is, and otherwise tells whether the newest time stamp of [S] is
    greater, strictly, than the oldest of [G]. *)
Theorem check_if_transpilation_needed_refines w :
  let S := mtimes (source_artifacts (fs w)) in
  let G := mtimes (generated_artifacts (fs w)) in
  (exists evs,
     check_if_transpilation_needed w =
       (Ok (needsRegeneration S G), World (fs w) (trace w ++ evs))) /\
  (S = [] -> needsRegeneration S G = false) /\
  (S <> [] -> G = [] -> needsRegeneration S G = true) /\
  (forall newest oldest,
     newest ∈ S -> (forall s, s ∈ S -> s <= newest) ->
     oldest ∈ G -> (forall g, g ∈ G -> oldest <= g) ->
     needsRegeneration S G = (newest >? oldest)).
Proof.
  intros S G. split; [|split; [|split]].
  - destruct w as [f t]. unfold S, G. simpl.
    destruct (check_if_transpilation_needed_run f t) as (evs & E).
    exists evs. rewrite E. do 2 f_equal.
    apply needsRegeneration_ext; intros x;
      apply (mtimes_glob_artifact_set f "src"); reflexivity.
  - intros ->. apply needsRegeneration_no_source.
  - intros HS ->. by apply needsRegeneration_first_build.
  - apply needsRegeneration_newest_oldest.
Qed.

(** On the example project the source [main.cn] (30) is newer than the
    oldest generated file of [src/] ([extra.cpp], 5). *)
Example check_if_transpilation_needed_project :
  (check_if_transpilation_needed (World project_fs [])).1 = Ok true.
Proof. vm_compute. reflexivity. Qed.

(** The examples of the specification, and a tie. *)
Example needsRegeneration_newer : needsRegeneration [100] [50; 200] = true.
Proof. reflexivity. Qed.

Example needsRegeneration_older : needsRegeneration [30] [50; 200] = false.
Proof. reflexivity. Qed.

Example needsRegeneration_tie : needsRegeneration [50; 20] [50; 200] = false.
Proof. reflexivity. Qed.

(** C2: when the compilation of the build script (stage 1) gives a failed
    result, that is, runs to its end with a status other than zero and
    output that decodes, the process exits with status 1, and of the two
    commands only the first was started: the transpiler (stage 2) was not
    run, and nothing was copied. *)
Theorem stage1_failure_exits_1 (m : machine) w rc out err f' :
  child_result m tsc_cmd (fs w) = (Ok (rc, out, err), f') ->
  rc <> 0 ->
  let evs := preamble ++
             [EvStdout ("❌ TypeScript compilation failed: " ++ err)] in
  (run m w = (1, World f' (trace w ++ evs)) /\
   spawned evs = [tsc_cmd] /\
   (node_cmd ∉ spawned evs) /\
   copies evs = []).
Proof.
  intros H Hrc evs. split; [|split; [reflexivity|split; [|reflexivity]]].
  - unfold run. rewrite (script_stage1_failed m w rc out err f' H Hrc).
    reflexivity.
  - simpl. intros Hin. apply list_elem_of_singleton in Hin. discriminate.
Qed.

(** On a machine where every command exits with status 2. *)
Lemma stage1_failure_exits_1_witness :
  let evs := preamble ++
             [EvStdout ("❌ TypeScript compilation failed: " ++ "TS2304")] in
  (run (machine_of (shell_exit 2 "" "TS2304")) (World ∅ []) =
     (1, World ∅ ([] ++ evs)) /\
   spawned evs = [tsc_cmd] /\
   (node_cmd ∉ spawned evs) /\
   copies evs = []).
Proof.
  apply (stage1_failure_exits_1 (machine_of (shell_exit 2 "" "TS2304"))
           (World ∅ []) 2 "" "TS2304" ∅).
  - reflexivity.
  - lia.
Defined.

(** C3: when stage 1 succeeds and the transpiler (stage 2) gives a failed
    result, that is, runs to its end with a status other than zero and
    output that decodes, the process exits with status 1 and the staging
    step is not performed: [generated/] is not listed, nothing is copied,
    and the file system is left as the transpiler left it. *)
Theorem stage2_failure_exits_1 (m : machine) w out1 err1 f1 rc out2 err2 f2 :
  child_result m tsc_cmd (fs w) = (Ok (0, out1, err1), f1) ->
  child_result m node_cmd f1 = (Ok (rc, out2, err2), f2) ->
  rc <> 0 ->
  let evs := preamble ++ transpiling ++
             [EvStdout ("❌ c-next transpilation failed: " ++ err2)] in
  (run m w = (1, World f2 (trace w ++ evs)) /\
   copies evs = [] /\
   (forall pattern, EvGlob ["generated"] pattern ∉ evs)).
Proof.
  intros H1 H2 Hrc evs. split; [|split; [reflexivity|]].
  - unfold run.
    rewrite (script_stage2_failed m w _ _ _ _ _ _ _ H1 H2 Hrc).
    reflexivity.
  - intros pattern Hin. unfold evs, preamble, transpiling in Hin.
    simpl in Hin.
    repeat (apply elem_of_cons in Hin as [Hin|Hin]; [discriminate|]).
    inversion Hin.
Qed.

(** On a machine where the compiler succeeds and the transpiler exits
    with status 1. *)
Lemma stage2_failure_exits_1_witness :
  let evs := preamble ++ transpiling ++
             [EvStdout ("❌ c-next transpilation failed: " ++ "parse error")] in
  (run (machine_of shell_node_fails) (World ∅ []) = (1, World ∅ ([] ++ evs)) /\
   copies evs = [] /\
   (forall pattern, EvGlob ["generated"] pattern ∉ evs)).
Proof.
  apply (stage2_failure_exits_1 (machine_of shell_node_fails) (World ∅ [])
           "" "" ∅ 1 "" "parse error" ∅).
  - reflexivity.
  - reflexivity.
  - lia.
Defined.

(** C4: an exception of class [Exception] raised anywhere in the body of
    the [try] of [main] (so, not the [SystemExit] of the two explicit exit
    paths) is caught by [main]: its message and its traceback are printed
    and the process exits with status 0. *)
Theorem unexpected_exception_exits_0 (m : machine) w e w' :
  main_body m
    (log (EvStdout "🚀 DEBUG: Script starting...")
       (log (EvStdout "🚀 build_cnext.py: Script starting...") w)) =
    (Raise e, w') ->
  is_Exception e = true ->
  run m w =
    (0, World (fs w')
          (trace w' ++ [EvStdout ("❌ ERROR: " ++ exn_str e); EvTraceback e])).
Proof.
  intros Hbody He.
  unfold run, script, main.
  unfold bind at 1. unfold print at 1, emit at 1.
  unfold bind at 1. unfold print at 1, emit at 1.
  unfold try_except. rewrite Hbody, He.
  unfold bind, print, traceback_print_exc, emit, log. simpl.
  rewrite <- app_assoc. reflexivity.
Qed.

(** On a machine where no child process can be started, the [OSError] of
    stage 1 is such an exception. *)
Lemma unexpected_exception_exits_0_witness :
  run (machine_of shell_unavailable) (World ∅ []) =
    (0, World ∅
          ((preamble ++ []) ++
           [EvStdout ("❌ ERROR: " ++
                      exn_str (OSError "[Errno 2] No such file or directory: '/bin/sh'"));
            EvTraceback (OSError "[Errno 2] No such file or directory: '/bin/sh'")])).
Proof.
  apply (unexpected_exception_exits_0 (machine_of shell_unavailable)
           (World ∅ [])
           (OSError "[Errno 2] No such file or directory: '/bin/sh'")
           (World ∅ (preamble ++ []))).
  - reflexivity.
  - reflexivity.
Defined.

(** C5, as stated, fails: on a machine where no child process can be
    started, [run_command] raises, and yet the process exits with
    status 0. *)
Lemma spawn_failure_exits_0_counterexample :
  ~ (forall (m : machine) w msg,
       shell m tsc_cmd (fs w) = SpawnFailed msg ->
       (exists e w', run_command m tsc_cmd w = (Raise e, w')) /\
       (run m w).1 <> 0).
Proof.
  intros H.
  destruct (H (machine_of shell_unavailable) (World ∅ []) _ eq_refl)
    as [_ Hexit].
  apply Hexit. reflexivity.
Qed.

(** C5, amended: when the child process of a stage cannot be started,
    [run_command] raises [OSError] instead of returning a result; [main]
    catches it, prints its message and its traceback, starts no further
    stage, copies nothing, and the process exits with status 0. *)
Theorem spawn_failure_is_swallowed (m : machine) w msg f evs :
  (shell m tsc_cmd (fs w) = SpawnFailed msg /\
   f = fs w /\ evs = preamble) \/
  (exists out1 err1,
     child_result m tsc_cmd (fs w) = (Ok (0, out1, err1), f) /\
     shell m node_cmd f = SpawnFailed msg /\
     evs = preamble ++ transpiling) ->
  (exists cmd, last (spawned evs) = Some cmd /\
     forall t, run_command m cmd (World f t) =
                 (Raise (OSError msg), World f (t ++ [EvSpawn cmd]))) /\
  run m w =
    (0, World f (trace w ++ evs ++
                 [EvStdout ("❌ ERROR: " ++ msg); EvTraceback (OSError msg)])) /\
  copies evs = [].
Proof.
  intros [(H1 & -> & ->)|(out1 & err1 & H1 & H2 & ->)].
  - split; [|split; [|reflexivity]].
    + exists tsc_cmd. split; [reflexivity|]. intros t.
      apply (run_command_spawn_failed m tsc_cmd (World (fs w) t)), H1.
    + unfold run. rewrite (script_spawn1_failed m w msg H1). reflexivity.
  - split; [|split; [|reflexivity]].
    + exists node_cmd. split; [reflexivity|]. intros t.
      apply (run_command_spawn_failed m node_cmd (World f t)), H2.
    + unfold run. rewrite (script_spawn2_failed m w _ _ _ _ H1 H2).
      rewrite <- app_assoc. reflexivity.
Qed.

(** On a machine where no child process can be started. *)
Lemma spawn_failure_is_swallowed_witness :
  (exists cmd, last (spawned preamble) = Some cmd /\
     forall t, run_command (machine_of shell_unavailable) cmd (World ∅ t) =
                 (Raise (OSError "[Errno 2] No such file or directory: '/bin/sh'"),
                  World ∅ (t ++ [EvSpawn cmd]))) /\
  run (machine_of shell_unavailable) (World ∅ []) =
    (0, World ∅ ([] ++ preamble ++
                 [EvStdout ("❌ ERROR: " ++
                            "[Errno 2] No such file or directory: '/bin/sh'");
                  EvTraceback (OSError "[Errno 2] No such file or directory: '/bin/sh'")])) /\
  copies preamble = [].
Proof.
  apply (spawn_failure_is_swallowed (machine_of shell_unavailable) (World ∅ [])
           "[Errno 2] No such file or directory: '/bin/sh'" ∅ preamble).
  left. repeat split; reflexivity.
Defined.

(** C6, as stated, fails: a child that runs to its end with status 2
    after writing a byte that does not decode makes [run_command] raise:
    text mode decodes what was captured before the exit status is looked
    at, and [run_command] handles [CalledProcessError] only. *)
Lemma run_command_raises_counterexample :
  ~ (forall (m : machine) cmd w rc out err f',
       shell m cmd (fs w) = Exited rc out err f' ->
       exists success stdout stderr w',
         run_command m cmd w = (Ok (success, stdout, stderr), w') /\
         (success = true <-> rc = 0)).
Proof.
  intros H.
  destruct (H (machine_of shell_garbled) tsc_cmd (World ∅ []) _ _ _ _ eq_refl)
    as (success & stdout & stderr & w' & E & _).
  vm_compute in E. discriminate.
Qed.

(** C6, amended: when the child process runs to its end and what it wrote
    on its two streams decodes, [run_command] raises nothing, whatever the
    exit status: it returns a triple whose first component is [True]
    exactly when the status is zero, with the captured standard output and
    standard error as text in both cases.  When one of the two streams
    does not decode, the standard output first, [run_command] raises the
    [UnicodeDecodeError], whatever the exit status.  In both cases the
    file system is the one the child left. *)
Theorem run_command_returns_unless_undecodable
    (m : machine) cmd w rc out err f' :
  shell m cmd (fs w) = Exited rc out err f' ->
  let w' := World f' (trace w ++ [EvSpawn cmd]) in
  (forall stdout stderr,
     codec m out = Text stdout -> codec m err = Text stderr ->
     exists success,
       run_command m cmd w =
         (Ok (success, replace_cr (replace_crlf stdout),
              replace_cr (replace_crlf stderr)), w') /\
       (success = true <-> rc = 0)) /\
  (forall msg,
     codec m out = Undecodable msg \/
     (exists stdout, codec m out = Text stdout /\
                     codec m err = Undecodable msg) ->
     run_command m cmd w = (Raise (UnicodeDecodeError msg), w')).
Proof.
  intros H w'. split.
  - intros stdout stderr Hout Herr. exists (rc =? 0). split.
    + apply run_command_exited. unfold child_result.
      rewrite H, Hout, Herr. reflexivity.
    + apply Z.eqb_eq.
  - intros msg Hmsg. apply run_command_raised. unfold child_result. rewrite H.
    destruct Hmsg as [Hout|(stdout & Hout & Herr)].
    + rewrite Hout. reflexivity.
    + rewrite Hout, Herr. reflexivity.
Qed.

(** A compiler that exits with status 2 after an error message, and one
    that does so after a byte that does not decode. *)
Lemma run_command_returns_unless_undecodable_witness :
  (exists success,
     run_command (machine_of (shell_exit 2 "" "error TS2304")) tsc_cmd
       (World ∅ []) =
       (Ok (success, "", "error TS2304"), World ∅ ([] ++ [EvSpawn tsc_cmd])) /\
     (success = true <-> 2 = 0)) /\
  run_command (machine_of shell_garbled) tsc_cmd (World ∅ []) =
    (Raise (UnicodeDecodeError
              "'utf-8' codec can't decode byte 0xff in position 0: invalid start byte"),
     World ∅ ([] ++ [EvSpawn tsc_cmd])).
Proof.
  split.
  - apply (proj1 (run_command_returns_unless_undecodable
                    (machine_of (shell_exit 2 "" "error TS2304")) tsc_cmd
                    (World ∅ []) 2 _ _ ∅ eq_refl) "" "error TS2304");
      reflexivity.
  - apply (proj2 (run_command_returns_unless_undecodable
                    (machine_of shell_garbled) tsc_cmd
                    (World ∅ []) 2 _ _ ∅ eq_refl)).
    left. reflexivity.
Defined.

(** C7: no run of the script consults the staleness detector: a call of
    [check_if_transpilation_needed] would leave a listing of [src/] in the
    trace, and the trace of a run has none, nor any request for a time
    stamp.  Whatever the time stamps, stage 1 is started, and stage 2 is
    started after it exactly when stage 1 gave a result with status
    zero. *)
Theorem main_never_consults_detector (m : machine) w :
  (exists evs,
     trace (run m w).2 = trace w ++ evs /\
     Forall (fun e => consults_detector e = false) evs /\
     spawned evs = stages_run m (fs w)) /\
  (forall w0, exists e evs0,
     trace (check_if_transpilation_needed w0).2 = trace w0 ++ e :: evs0 /\
     consults_detector e = true).
Proof.
  split.
  - rewrite run_world. apply script_events.
  - intros w0. destruct (detector_leaves_a_mark w0) as (evs0 & T).
    exists (EvGlob ["src"] "*.cn"), evs0. split; [exact T | reflexivity].
Qed.





(** C10: the staging step writes nothing but the destinations of the
    staged files.  A path that leads elsewhere after the step than before
    is the destination of some [.cpp] or [.h] entry [n] of [generated/]
    ([src/n], or [src/n/n] when [src/n] is a directory), its base name is
    [n], and it leads to a copy of [generated/n]; or it is the directory
    of such a destination that was not there before, and it is still a
    directory: receiving the new entry changed its time stamp.  So a
    regular file that is not such a destination has its data and its time
    stamp as before; the [.cn] and [.cnm] entries of [src/] are as they
    were, as is any [src/n] whose name is not that of such an entry of
    [generated/] (a file of a subdirectory of [generated/] is not one);
    and no path that led somewhere leads nowhere. *)
Theorem staging_frame (m : machine) w :
  let f := fs w in
  let f' := fs (stage_generated m w).2 in
  (forall q, f' !! q <> f !! q ->
     (exists n data t,
        (["generated"; n], File data t) ∈ transpiler_output f /\
        q = dest f n /\ path_name q = n /\ f' !! q = Some (File data t)) \/
     (exists n data t t0 t1,
        (["generated"; n], File data t) ∈ transpiler_output f /\
        q = removelast (dest f n) /\ f !! dest f n = None /\
        f !! q = Some (Dir t0) /\ f' !! q = Some (Dir t1))) /\
  (forall q data t, f !! q = Some (File data t) ->
     f' !! q = Some (File data t) \/
     exists n x, (["generated"; n], x) ∈ transpiler_output f /\ q = dest f n) /\
  (forall n, existsb (fun e => has_extension e n) [".cn"; ".cnm"] = true ->
     f' !! ["src"; n] = f !! ["src"; n]) /\
  (forall n, (forall x, (["generated"; n], x) ∉ transpiler_output f) ->
     f' !! ["src"; n] = f !! ["src"; n]) /\
  (forall q, is_Some (f !! q) -> is_Some (f' !! q)).
Proof.
  destruct w as [f0 t]. simpl.
  destruct (stage_generated m (World f0 t)) as [r w'] eqn:E. simpl.
  apply stage_generated_staged in E as (Hs & _).
  split; [|split; [|split; [|split]]].
  - intros q Hq.
    destruct (Hs q)
      as [E|[(n & data & t0 & Hx & -> & E & _)
            |(n & data & t0 & ta & tb & Hx & -> & Hnone & Ea & Eb)]];
      [contradiction| |].
    + left. exists n, data, t0. split; [exact Hx|]. split; [reflexivity|].
      split; [|exact E].
      unfold dest, path_name. destruct (is_dir f0 ["src"; n]); reflexivity.
    + right. exists n, data, t0, ta, tb. auto.
  - intros q data t0 Hq.
    destruct (Hs q)
      as [E|[(n & data' & t' & Hx & -> & _)
            |(n & data' & t' & ta & tb & _ & _ & _ & Ea & _)]].
    + left. by rewrite E.
    + right. eauto.
    + congruence.
  - intros n Hn. by apply staged_from_source_name.
  - intros n Hn. by apply staged_from_unstaged.
  - intros q Hq.
    destruct (Hs q)
      as [E|[(n & data & t0 & _ & _ & E & _)
            |(n & data & t0 & ta & tb & _ & _ & _ & _ & E)]];
      rewrite E; eauto.
Qed.

(** On the example project: the transpiler input and the hand-written
    file whose name only occurs in a subdirectory of [generated/] are
    left as they were, the stale [src/main.cpp] is replaced, and [src/],
    which receives [main.h], has the time stamp of that creation. *)
Example staging_frame_project :
  let f' := fs (stage_generated (machine_of shell_unavailable)
                  (World project_fs [])).2 in
  f' !! ["src"; "main.cn"] = Some (File "u8 led <- 13;" 30) /\
  f' !! ["src"; "extra.cpp"] = Some (File "// hand written" 5) /\
  f' !! ["src"; "main.cpp"] = Some (File "uint8_t led = 13;" 41) /\
  f' !! ["src"; "main.h"] = Some (File "#pragma once" 42) /\
  f' !! ["generated"; "sub"; "extra.cpp"] = Some (File "// nested" 1) /\
  project_fs !! ["src"] = Some (Dir 10) /\
  exists now, f' !! ["src"] = Some (Dir now) /\ now >= 1000.
Proof. vm_compute. repeat split; try reflexivity. eexists. split; [reflexivity|]. discriminate. Qed.

(** X1: the exit status of the process is 1 exactly when one of the two
    stages gave a failed result, that is, ran to its end with a status
    other than zero and output that decodes (stage 2 being started only
    after a stage 1 that gave a result with status zero), and 0 in every
    other case: success, a child that could not be started, output that
    does not decode, a failure of the staging step. *)
Theorem exit_status_cases (m : machine) w :
  (run m w).1 = expected_status m (fs w).
Proof.
  unfold expected_status. rewrite run_status.
  destruct (script_cases m w)
    as [(e & f1 & H1 & E)
       |[(rc & out & err & f1 & H1 & Hrc & E)
        |(out1 & err1 & f1 & H1 &
          [(e & f2 & H2 & E)
          |[(rc & out & err & f2 & H2 & Hrc & E)
           |(out2 & err2 & f2 & H2 & E)]])]];
    rewrite H1; try rewrite H2.
  - by rewrite E.
  - apply Z.eqb_neq in Hrc. by rewrite Hrc, E.
  - by rewrite E.
  - apply Z.eqb_neq in Hrc. simpl. by rewrite Hrc, E.
  - rewrite <- run_status. by eapply script_both_ok_exit.
Qed.


(** * Further properties of the script *)

(** X2: the comment of line 40, to the letter: the detector answers [True]
    exactly when there is a source artifact and either no generated
    artifact at all, or some source artifact with a time stamp greater,
    strictly, than that of some generated artifact: one newer source, or
    one older generated file, is enough. *)
Theorem detector_true_iff_some_source_newer w :
  (check_if_transpilation_needed w).1 = Ok true <->
  source_artifacts (fs w) <> [] /\
  (generated_artifacts (fs w) = [] \/
   exists p x q y,
     (p, x) ∈ source_artifacts (fs w) /\
     (q, y) ∈ generated_artifacts (fs w) /\
     node_mtime x > node_mtime y).
Proof.
  rewrite check_if_transpilation_needed_verdict.
  split.
  - intros H. injection H as H'. apply needsRegeneration_true_iff in H'.
    rewrite !mtimes_nil in H'. destruct H' as [HS [HG|(s & g & Hs & Hg & Hsg)]].
    + auto.
    + split; [exact HS|]. right.
      apply elem_of_mtimes in Hs as (p & x & Hp & ->).
      apply elem_of_mtimes in Hg as (q & y & Hq & ->).
      eauto 8.
  - intros H. f_equal. apply needsRegeneration_true_iff.
    rewrite !mtimes_nil. destruct H as [HS [HG|(p & x & q & y & Hp & Hq & Hxy)]].
    + auto.
    + split; [exact HS|]. right. exists (node_mtime x), (node_mtime y).
      split; [|split; [|exact Hxy]]; apply elem_of_mtimes; eauto.
Qed.


(** X4: copies are made from a successful build only, and are never
    undone.  Whatever the outcome of a run, a copy it made was made after
    both stages had exited with status zero, is the copy of a [.cpp] or
    [.h] regular file directly in [generated/] to its destination under
    [src/], and when the script ends the destination still holds the data
    and the time stamp that the source has: a staging step that an
    exception cuts short keeps the copies made before it. *)
Theorem copies_are_in_place (m : machine) w s d :
  (s, d) ∈ copies (new_events w (run m w).2) ->
  both_stages_ok m (fs w) = true /\
  exists n data t,
    s = ["generated"; n] /\
    (s, File data t) ∈ transpiler_output (tools_fs m (fs w)) /\
    d = dest (tools_fs m (fs w)) n /\
    fs (run m w).2 !! d = Some (File data t) /\
    fs (run m w).2 !! s = Some (File data t).
Proof.
  rewrite run_world. intros Hsd.
  destruct (both_stages_ok m (fs w)) eqn:Hok.
  2:{ destruct (script_not_both_ok m w Hok) as (_ & evs & T & Hnone).
      rewrite (new_events_trace _ _ _ T), Hnone in Hsd. inversion Hsd. }
  split; [reflexivity|].
  destruct (both_stages_ok_true m (fs w) Hok)
    as (out1 & err1 & f1 & out2 & err2 & H1 & H2).
  destruct (script_both_ok_staging m w _ _ _ _ _ _ H1 H2)
    as (evs & tail & T & Htail & Hs & Hin).
  rewrite (new_events_trace _ _ _ T) in Hsd.
  rewrite !copies_app, Htail in Hsd. simpl in Hsd.
  rewrite app_nil_r in Hsd.
  destruct (Hin s d Hsd) as (n & data & t & -> & Hx & -> & Hd).
  exists n, data, t. split; [reflexivity|]. split; [exact Hx|].
  split; [reflexivity|]. split; [exact Hd|].
  rewrite (staged_from_generated _ _ _ Hs).
  by apply elem_of_artifact_set in Hx as (_ & Hx & _).
Qed.

(** On the example project the copy of [main.cpp] is one of the copies
    made. *)
Lemma copies_are_in_place_witness :
  let m := machine_of (shell_exit 0 "Transpiled 1 file" "") in
  let w := World project_fs [] in
  both_stages_ok m (fs w) = true /\
  exists n data t,
    ["generated"; "main.cpp"] = ["generated"; n] /\
    (["generated"; "main.cpp"], File data t) ∈
      transpiler_output (tools_fs m (fs w)) /\
    ["src"; "main.cpp"] = dest (tools_fs m (fs w)) n /\
    fs (run m w).2 !! ["src"; "main.cpp"] = Some (File data t) /\
    fs (run m w).2 !! ["generated"; "main.cpp"] = Some (File data t).
Proof.
  apply (copies_are_in_place (machine_of (shell_exit 0 "Transpiled 1 file" ""))
           (World project_fs []) ["generated"; "main.cpp"]
           ["src"; "main.cpp"]).
  vm_compute. left.
Defined.

(** X5: the script writes no file but the destinations of the staged
    files.  When a stage did not give a result with status zero, the file
    system at the end of the run is the one the child processes left.
    When both did, a path that leads elsewhere than the child processes
    left it is the destination of a [.cpp] or [.h] regular file directly in
    [generated/] and leads to its copy, or is the directory of such a
    destination that was not there, still a directory, with the time
    stamp of the creation; and in no run does a path that led somewhere
    lead nowhere afterwards. *)
Theorem run_changes_only_staging_destinations (m : machine) w :
  let g := tools_fs m (fs w) in
  let f' := fs (run m w).2 in
  (both_stages_ok m (fs w) = false -> f' = g) /\
  (forall q, f' !! q <> g !! q ->
     (exists n data t,
        (["generated"; n], File data t) ∈ transpiler_output g /\
        q = dest g n /\ f' !! q = Some (File data t)) \/
     (exists n data t t0 t1,
        (["generated"; n], File data t) ∈ transpiler_output g /\
        q = removelast (dest g n) /\ g !! dest g n = None /\
        g !! q = Some (Dir t0) /\ f' !! q = Some (Dir t1))) /\
  (forall q, is_Some (g !! q) -> is_Some (f' !! q)).
Proof.
  intros g f'. unfold f'. rewrite run_world.
  assert (Hs : staged_from g (fs (script m w).2)).
  { destruct (both_stages_ok m (fs w)) eqn:Hok.
    - destruct (both_stages_ok_true m (fs w) Hok)
        as (out1 & err1 & f1 & out2 & err2 & H1 & H2).
      by destruct (script_both_ok_staging m w _ _ _ _ _ _ H1 H2)
        as (evs & tail & _ & _ & Hs & _).
    - destruct (script_not_both_ok m w Hok) as (-> & _).
      apply staged_from_refl. }
  split; [|split].
  - intros Hok. by destruct (script_not_both_ok m w Hok) as (-> & _).
  - intros q Hq.
    destruct (Hs q)
      as [E|[(n & data & t & Hx & -> & E & _)
            |(n & data & t & ta & tb & Hx & -> & Hnone & Ea & Eb)]];
      [contradiction|left; eauto 8|right; eauto 10].
  - intros q Hq.
    destruct (Hs q)
      as [E|[(n & data & t & _ & _ & E & _)
            |(n & data & t & ta & tb & _ & _ & _ & _ & E)]];
      rewrite E; eauto.
Qed.



(** X7: the detector looks at the entries directly in [src/] and at
    nothing else: on two file systems with the same [src] and the same
    entries directly in it, it gives the same answer, whatever the rest
    holds; a source file in a subdirectory of [src/] is not seen. *)
Theorem detector_sees_only_direct_entries f g t t' :
  f !! ["src"] = g !! ["src"] ->
  (forall n, f !! ["src"; n] = g !! ["src"; n]) ->
  (check_if_transpilation_needed (World f t)).1 =
  (check_if_transpilation_needed (World g t')).1.
Proof.
  intros Hd Hn. rewrite !check_if_transpilation_needed_verdict. simpl.
  f_equal. apply needsRegeneration_ext; intros x;
    by apply mtimes_artifact_set_agree.
Qed.

(** A source file in [src/lib/], newer than everything, changes nothing
    to the answer. *)
Lemma detector_sees_only_direct_entries_witness :
  (check_if_transpilation_needed (World nested_source_fs [])).1 =
  (check_if_transpilation_needed (World library_fs [])).1.
Proof.
  apply (detector_sees_only_direct_entries nested_source_fs library_fs [] []).
  - reflexivity.
  - intros n. unfold nested_source_fs.
    apply lookup_insert_ne. discriminate.
Defined.

(** X8: of the text its child processes write, the script shows the error
    text of a stage that failed and the standard output of a stage 2 that
    succeeded, and nothing else.  Two machines with the same clock whose
    stages agree on what [subprocess.run] raises, if it raises, and else
    on the exit status, the file system and these two texts, give the very
    same run.  The standard output of stage 1, and the error text of a
    stage that succeeded, matter only in that they must decode. *)
Theorem hidden_output_does_not_show (m m' : machine) w :
  clock m = clock m' ->
  shown_of_stage1 (child_result m tsc_cmd (fs w)) =
    shown_of_stage1 (child_result m' tsc_cmd (fs w)) ->
  (forall f1, shown_of_stage2 (child_result m node_cmd f1) =
              shown_of_stage2 (child_result m' node_cmd f1)) ->
  run m w = run m' w.
Proof.
  intros Hclock Hone Htwo. unfold run.
  assert (Hscript : script m w = script m' w); [|by rewrite Hscript].
  destruct (child_result m tsc_cmd (fs w))
    as [[[[rc1 out1] err1]|e1] f1] eqn:H1;
    destruct (child_result m' tsc_cmd (fs w))
      as [[[[rc1' out1'] err1']|e1'] f1'] eqn:H1';
    simpl in Hone; try discriminate.
  2:{ injection Hone as <- <-.
      by rewrite (script_stage1_raised m w _ _ H1),
                 (script_stage1_raised m' w _ _ H1'). }
  injection Hone as <- Herr <-.
  destruct (Z.eqb_spec rc1 0) as [->|Hrc1].
  2:{ subst err1'.
      by rewrite (script_stage1_failed m w _ _ _ _ H1 Hrc1),
                 (script_stage1_failed m' w _ _ _ _ H1' Hrc1). }
  clear Herr. specialize (Htwo f1).
  destruct (child_result m node_cmd f1)
    as [[[[rc2 out2] err2]|e2] f2] eqn:H2;
    destruct (child_result m' node_cmd f1)
      as [[[[rc2' out2'] err2']|e2'] f2'] eqn:H2';
    simpl in Htwo; try discriminate.
  2:{ injection Htwo as <- <-.
      by rewrite (script_stage2_raised m w _ _ _ _ _ H1 H2),
                 (script_stage2_raised m' w _ _ _ _ _ H1' H2'). }
  injection Htwo as <- Hout Herr <-.
  destruct (Z.eqb_spec rc2 0) as [->|Hrc2].
  - subst out2'.
    by rewrite (script_both_ok m w _ _ _ _ _ _ H1 H2),
               (script_both_ok m' w _ _ _ _ _ _ H1' H2'),
               (stage_generated_clock m m' Hclock).
  - subst err2'.
    by rewrite (script_stage2_failed m w _ _ _ _ _ _ _ H1 H2 Hrc2),
               (script_stage2_failed m' w _ _ _ _ _ _ _ H1' H2' Hrc2).
Qed.

(** A compiler that writes on both streams and a transpiler that writes a
    notice on its error stream, both with status zero: the run is that of
    silent tools with the same standard output of stage 2. *)
Lemma hidden_output_does_not_show_witness :
  run (machine_of shell_chatty) (World project_fs []) =
  run (machine_of (shell_exit 0 "Transpiled 1 file" "")) (World project_fs []).
Proof.
  apply (hidden_output_does_not_show (machine_of shell_chatty)
           (machine_of (shell_exit 0 "Transpiled 1 file" ""))
           (World project_fs [])).
  - reflexivity.
  - reflexivity.
  - intros f1. reflexivity.
Defined.
